(** * MolMIM notebooks: client-side post-processing, verified

    A shallow embedding of the post-processing code of the three notebooks
    ([1-ClusterMolMIMEmbeddings], [2-MolMIMInterpolation],
    [3-MolMIMGeneration]): response extraction, the hidden-state
    interpolation loop, the decode request, order-preserving
    deduplication, Tanimoto scoring and the two sweep loops.

    Conventions.
    - Python exceptions are explicit: fallible code returns [result A].
    - Where only the structure of the data is at stake (shapes, counts,
      which exception, proportions), binary64 numbers are idealised as
      exact rationals ([Qc], with Leibniz equality).  [np.mean]
      additionally produces [nan], which is kept as a separate
      constructor.
    - The values of the interpolation depend on rounding; they are
      settled on binary64 itself ([Binary64], over the kernel's floats
      and their specification).
    - A Python [dict] is an association list in insertion order. *)

From Stdlib Require Import QArith Qcanon.
From Stdlib Require Floats.
From stdpp Require Import base option list strings numbers.
From stdpp Require pretty.

Local Open Scope Z_scope.
Local Set Warnings "-register-all".

(** ** Python exceptions and fallible computations *)

Module Py.

(** The exception classes the notebooks can raise: Python's own,
    NumPy's [AxisError], and Boost.Python's [ArgumentError], raised by
    RDKit on a [None] argument. *)
Inductive exn : Set :=
  | ZeroDivisionError
  | OverflowError
  | KeyError
  | IndexError
  | TypeError
  | ValueError
  | AxisError
  | AttributeError
  | ArgumentError.

Definition exn_name (e : exn) : string :=
  match e with
  | ZeroDivisionError => "ZeroDivisionError"
  | OverflowError => "OverflowError"
  | KeyError => "KeyError"
  | IndexError => "IndexError"
  | TypeError => "TypeError"
  | ValueError => "ValueError"
  | AxisError => "AxisError"
  | AttributeError => "AttributeError"
  | ArgumentError => "ArgumentError"
  end.

Inductive result (A : Type) : Type :=
  | Return (a : A)
  | Raise (e : exn).
Global Arguments Return {A} a.
Global Arguments Raise {A} e.

Global Instance result_ret : MRet result := λ A a, Return a.
Global Instance result_bind : MBind result := λ A B f m,
  match m with
  | Return a => f a
  | Raise e => Raise e
  end.
Global Instance result_fmap : FMap result := λ A B f m,
  match m with
  | Return a => Return (f a)
  | Raise e => Raise e
  end.

(** [for x in xs: acc = body(acc, x)], stopping at the first exception. *)
Fixpoint for_each {A S : Type} (body : S → A → result S) (xs : list A) (acc : S)
  : result S :=
  match xs with
  | [] => Return acc
  | x :: xs' => acc' ← body acc x; for_each body xs' acc'
  end.

(** [[x for x in xs if p(x)]] with a fallible test. *)
Fixpoint filter_comp {A : Type} (p : A → result bool) (xs : list A)
  : result (list A) :=
  match xs with
  | [] => Return []
  | x :: xs' =>
      b ← p x;
      rest ← filter_comp p xs';
      Return (if b : bool then x :: rest else rest)
  end.

(** [[f(x) for x in xs]] with a fallible [f]. *)
Fixpoint map_comp {A B : Type} (f : A → result B) (xs : list A)
  : result (list B) :=
  match xs with
  | [] => Return []
  | x :: xs' => y ← f x; rest ← map_comp f xs'; Return (y :: rest)
  end.

(** [range(n)] for a Python int [n]: empty when [n <= 0]. *)
Definition range (n : Z) : list Z := seqZ 0 n.

(** [a / b] on two Python ints: true division. *)
Definition truediv (a b : Z) : result Qc :=
  if decide (b = 0) then Raise ZeroDivisionError
  else Return (Qc_of_Z a / Qc_of_Z b)%Qc.

(** *** Insertion-ordered dictionaries *)

Section dict.
Context {K V : Type} `{EqDecision K}.

Definition dict : Type := list (K * V).

Definition keys (d : dict) : list K := d.*1.

Fixpoint get (d : dict) (k : K) : option V :=
  match d with
  | [] => None
  | (k', v) :: d' => if decide (k' = k) then Some v else get d' k
  end.

(** [d[k] = v]: an existing key keeps its position, a new key goes last. *)
Fixpoint setitem (d : dict) (k : K) (v : V) : dict :=
  match d with
  | [] => [(k, v)]
  | (k', v') :: d' =>
      if decide (k' = k) then (k', v) :: d' else (k', v') :: setitem d' k v
  end.

(** [dict.fromkeys(xs, v)] *)
Definition fromkeys (xs : list K) (v : V) : dict :=
  foldl (λ d k, setitem d k v) [] xs.
End dict.
Global Arguments dict : clear implicits.

End Py.
Import Py.

(** ** Parsed JSON (what [response.json()] and [json.loads] return) *)

Inductive json : Type :=
  | JNull
  | JBool (b : bool)
  | JNum (q : Qc)
  | JStr (s : string)
  | JArr (items : list json)
  | JObj (fields : list (string * json)).

(** [v[k]] for a string key [k]: only a dict can be subscripted by a
    string; a missing key is a [KeyError]. *)
Definition getitem_key (v : json) (k : string) : result json :=
  match v with
  | JObj fields =>
      match get fields k with
      | Some x => Return x
      | None => Raise KeyError
      end
  | _ => Raise TypeError
  end.

(** [v[i]] for a non-negative int [i]. *)
Definition getitem_index (v : json) (i : nat) : result json :=
  match v with
  | JArr items =>
      match items !! i with
      | Some x => Return x
      | None => Raise IndexError
      end
  | JStr s =>
      if decide (i < String.length s)%nat then Return (JStr (String.substring i 1 s))
      else Raise IndexError
  | JObj _ => Raise KeyError
  | _ => Raise TypeError
  end.

(** [for m in v]: a list yields its items, a string its characters, a
    dict its keys; nothing else is iterable. *)
Definition iterate (v : json) : result (list json) :=
  match v with
  | JArr items => Return items
  | JStr s => Return ((λ c, JStr (String c EmptyString)) <$> String.list_ascii_of_string s)
  | JObj fields => Return (JStr <$> keys fields)
  | _ => Raise TypeError
  end.

(** ** The part of NumPy the notebooks use *)

Module Np.

(** An array is a shape and its items in row-major order.  The items are
    kept as parsed, so that conversion, [squeeze] and indexing do not
    depend on the element type. *)
Record ndarray : Type := { shape : list nat; data : list json }.

Definition product (dims : list nat) : nat := foldr Nat.mul 1%nat dims.

(** The shape [np.array] discovers: every item of a list must have the
    same shape; anything that is not a list is a scalar. *)
Fixpoint shape_of (v : json) : option (list nat) :=
  match v with
  | JArr items =>
      match items with
      | [] => Some [0%nat]
      | x :: rest =>
          match shape_of x with
          | Some s =>
              if forallb (λ y, bool_decide (shape_of y = Some s)) rest
              then Some (length items :: s) else None
          | None => None
          end
      end
  | _ => Some []
  end.

Fixpoint leaves (v : json) : list json :=
  match v with
  | JArr items => mjoin (leaves <$> items)
  | _ => [v]
  end.

(** [np.array(v)]: a ragged nesting is a [ValueError] (NumPy 1.24 and
    later). *)
Definition array (v : json) : result ndarray :=
  match shape_of v with
  | Some s => Return {| shape := s; data := leaves v |}
  | None => Raise ValueError
  end.

(** [np.squeeze(a)]: drop every axis of length one. *)
Definition squeeze (a : ndarray) : ndarray :=
  {| shape := filter (λ d, d ≠ 1%nat) (shape a); data := data a |}.

(** The [i]-th slice along axis 0: the remaining axes, and the [i]-th run
    of items. *)
Definition row (a : ndarray) (i : nat) : ndarray :=
  let rest := tail (shape a) in
  {| shape := rest;
     data := take (product rest) (drop (i * product rest) (data a)) |}.

(** [a[i]] for a non-negative int [i]: an array without axes cannot be
    indexed, and [i] must be below the length of axis 0. *)
Definition item (a : ndarray) (i : nat) : result ndarray :=
  match shape a with
  | [] => Raise IndexError
  | d :: _ => if decide (i < d)%nat then Return (row a i) else Raise IndexError
  end.

(** [np.expand_dims(a, axis)] for a non-negative [axis]. *)
Definition expand_dims (a : ndarray) (axis : nat) : result ndarray :=
  if decide (axis ≤ length (shape a))%nat
  then Return {| shape := take axis (shape a) ++ 1%nat :: drop axis (shape a);
                 data := data a |}
  else Raise AxisError.

(** [a.tolist()]: nested lists following the shape. *)
Fixpoint tolist_at (dims : list nat) (items : list json) : json :=
  match dims with
  | [] => default JNull (head items)
  | d :: rest =>
      JArr ((λ i, tolist_at rest (take (product rest) (drop (i * product rest) items)))
              <$> seq 0 d)
  end.

Definition tolist (a : ndarray) : json := tolist_at (shape a) (data a).

(** One-dimensional float arrays, as the interpolation uses them. *)
Abbreviation vector := (list Qc).

(** [t * v] for a Python float [t]. *)
Definition scale (t : Qc) (v : vector) : vector := (λ x, t * x)%Qc <$> v.

(** [u + v] with NumPy's broadcasting rule for one axis. *)
Definition add (u v : vector) : result vector :=
  if decide (length u = length v) then Return (zip_with Qcplus u v)
  else if decide (length u = 1%nat) then Return ((λ y, hd 0 u + y)%Qc <$> v)
  else if decide (length v = 1%nat) then Return ((λ x, x + hd 0 v)%Qc <$> u)
  else Raise ValueError.

(** A vector as the nested list of numbers that [np.array] and [tolist]
    exchange. *)
Definition of_vector (v : vector) : json := JArr (JNum <$> v).

(** The result of [np.mean]: a number, or [nan]. *)
Inductive float64 : Type :=
  | fin (q : Qc)
  | nan.

Definition sum (xs : list Qc) : Qc := foldr Qcplus 0%Qc xs.

(** [np.mean(xs)]: the mean of an empty sequence is [nan] (NumPy only
    warns). *)
Definition mean (xs : list Qc) : float64 :=
  match xs with
  | [] => nan
  | _ => fin (sum xs / Qc_of_Z (Z.of_nat (length xs)))%Qc
  end.

End Np.

(** ** Notebook 1: embeddings *)

(** [embeddings = json.loads(response.text)["embeddings"]] *)
Definition extract_embeddings (response_json : json) : result json :=
  getitem_key response_json "embeddings".

(** ** Notebook 2: hidden states, interpolation, decode request *)

(** The cell that reads the [/hidden] response. *)
Definition extract_hidden_rows (response_json : json)
  : result (Np.ndarray * Np.ndarray) :=
  hiddens ← getitem_key response_json "hiddens";
  hiddens_array ← Np.array hiddens;
  let hiddens_array := Np.squeeze hiddens_array in
  row1 ← Np.item hiddens_array 0;
  row2 ← Np.item hiddens_array 1;
  Return (row1, row2).

(** The interpolation loop. *)
Definition interpolate (row1 row2 : Np.vector) (n_interp : Z)
  : result (list Np.vector) :=
  for_each (λ interpolated_rows i,
      t ← truediv i (n_interp - 1);
      interpolated_row ← Np.add (Np.scale (1 - t) row1) (Np.scale t row2);
      Return (interpolated_rows ++ [interpolated_row]))
    (range n_interp) [].

(** [np.expand_dims(np.array(interpolated_rows), axis=1)] *)
Definition interpolated_hiddens (interpolated_rows : list Np.vector)
  : result Np.ndarray :=
  arr ← Np.array (JArr (Np.of_vector <$> interpolated_rows));
  Np.expand_dims arr 1.

(** The body of the [/decode] request. *)
Definition interpolated_hiddens_json (interpolated_rows : list Np.vector)
    (n_interp : Z) : result json :=
  hiddens ← interpolated_hiddens interpolated_rows;
  Return (JObj [("hiddens", Np.tolist hiddens);
                ("mask", JArr ((λ _, JArr [JBool true]) <$> range n_interp))]).

(** [response.json()['generated']] of the [/decode] response. *)
Definition extract_generated (response_json : json) : result json :=
  getitem_key response_json "generated".

(** *** The interpolation on binary64

    The same loop with the numbers the notebook computes with.  [float]
    is binary64; its operations round to nearest, ties to even, as
    Python's and NumPy's do.  The rows are one-axis [float64] arrays. *)

Module Binary64.
Import PrimFloat SpecFloat.

Abbreviation vector := (list float).

(** A Python int as an unrounded binary number: the mantissa is the
    whole integer. *)
Definition of_int (z : Z) : spec_float :=
  match z with
  | Z0 => S754_zero false
  | Zpos p => S754_finite false p 0
  | Zneg p => S754_finite true p 0
  end.

(** The quotient of two ints, rounded once. *)
Definition quotient (a b : Z) : spec_float :=
  SFdiv FloatOps.prec FloatOps.emax (of_int a) (of_int b).

(** [a / b] on two Python ints: true division gives the float nearest to
    the quotient of the integers, whatever their size; a quotient beyond
    the range of binary64 is an error. *)
Definition truediv (a b : Z) : result float :=
  if decide (b = 0) then Raise ZeroDivisionError
  else match quotient a b with
       | S754_infinity _ => Raise OverflowError
       | q => Return (FloatOps.SF2Prim q)
       end.

(** [t * v] for a Python float [t]. *)
Definition scale (t : float) (v : vector) : vector := (λ x, t * x)%float <$> v.

(** [u + v] with NumPy's broadcasting rule for one axis. *)
Definition add (u v : vector) : result vector :=
  if decide (length u = length v) then Return (zip_with PrimFloat.add u v)
  else if decide (length u = 1%nat) then Return ((λ y, hd 0 u + y)%float <$> v)
  else if decide (length v = 1%nat) then Return ((λ x, x + hd 0 v)%float <$> u)
  else Raise ValueError.

(** The interpolation loop. *)
Definition interpolate (row1 row2 : vector) (n_interp : Z)
  : result (list vector) :=
  for_each (λ interpolated_rows i,
      t ← truediv i (n_interp - 1);
      interpolated_row ← add (scale (1 - t) row1) (scale t row2);
      Return (interpolated_rows ++ [interpolated_row]))
    (range n_interp) [].

(** The specification's formula for one component, each operation
    rounded: the point at parameter [t] on the segment from [a] to [b]. *)
Definition lerp (t a b : float) : float := ((1 - t) * a + t * b)%float.

(** The parameter of row [i] among [n] rows: [t = i / (n - 1)], rounded. *)
Definition param (n i : Z) : float := FloatOps.SF2Prim (quotient i (n - 1)).

(** Row [i] as the specification gives it. *)
Definition row_at (A B : vector) (n : Z) (i : nat) : vector :=
  zip_with (lerp (param n (Z.of_nat i))) A B.

(** Python's [x == y] on floats: equal as numbers (the two zeros are
    equal, [nan] equals nothing). *)
Definition same_number (x y : float) : Prop := (x =? y)%float = true.

(** No component is infinite or [nan]. *)
Definition finite (v : vector) : Prop := Forall (λ x, is_finite x = true) v.

(** The rows move from [A] to [B] without turning back: in every
    component, a later row is at least as far along as an earlier one, and
    every value lies between the two endpoints. *)
Definition transitions_monotonically (A B : vector) (rows : list vector) : Prop :=
  ∀ (i i' j : nat) (row row' : vector) (a b : float),
    (i ≤ i')%nat →
    rows !! i = Some row → rows !! i' = Some row' →
    A !! j = Some a → B !! j = Some b →
    ∃ x x', row !! j = Some x ∧ row' !! j = Some x' ∧
      ((a <=? b)%float = true →
         (a <=? x)%float = true ∧ (x <=? x')%float = true ∧ (x' <=? b)%float = true) ∧
      ((b <=? a)%float = true →
         (b <=? x')%float = true ∧ (x' <=? x)%float = true ∧ (x <=? a)%float = true).

(** The float that Python writes [0.9], and the next float above it,
    which Python writes [0.9000000000000001]. *)
Definition nine_tenths : float := 0x1.ccccccccccccdp-1.
Definition above_nine_tenths : float := 0x1.ccccccccccccep-1.

End Binary64.

(** ** The cheminformatics toolkit (RDKit), an external collaborator *)

(** What the notebooks assume of the toolkit: a parser that yields a
    molecule or nothing, a circular fingerprint of the requested number of
    bits, a drug-likeness estimate, and a Tanimoto coefficient.  The
    coefficient is intersection over union; where neither fingerprint has
    a bit set the ratio is undefined, and the number the toolkit answers
    there ([empty_union], a proportion like every coefficient) is its
    own. *)
Class Toolkit : Type := {
  Mol : Type;
  parse : string → option Mol;
  fingerprint : Mol → nat → nat → list bool;
  fingerprint_length m radius nBits : length (fingerprint m radius nBits) = nBits;
  drug_likeness : Mol → Qc;
  empty_union : Qc;
  empty_union_range : (0 ≤ empty_union)%Qc ∧ (empty_union ≤ 1)%Qc
}.

Module Chem.
Section wrappers.
Context `{Toolkit}.

(** [Chem.MolFromSmiles(smiles)]: [None] when the string does not parse;
    an argument that is not a string is rejected by the binding. *)
Definition MolFromSmiles (smiles : json) : result (option Mol) :=
  match smiles with
  | JStr s => Return (parse s)
  | _ => Raise TypeError
  end.

(** [GetMorganFingerprintAsBitVect(mol, radius=, nBits=)]: the binding
    rejects [None]. *)
Definition GetMorganFingerprintAsBitVect (mol : option Mol) (radius nBits : nat)
  : result (list bool) :=
  match mol with
  | Some m => Return (fingerprint m radius nBits)
  | None => Raise ArgumentError
  end.

(** [rdkit.Chem.QED.qed(mol)] *)
Definition qed (mol : Mol) : Qc := drug_likeness mol.
End wrappers.

Definition NumOnBits (bv : list bool) : nat := length (filter (λ b, b = true) bv).

Definition NumOnBitsInCommon (bv1 bv2 : list bool) : nat :=
  NumOnBits (zip_with andb bv1 bv2).

Definition Qc_of_nat (n : nat) : Qc := Qc_of_Z (Z.of_nat n).

(** Modelled from the spec: the toolkit's [tanimoto(bitsetA, bitsetB)],
    the set-overlap metric (intersection over union) of two fingerprints.
    Vectors of different lengths are refused; on an empty union, where the
    ratio would be 0/0, the answer is the toolkit's [empty_union]. *)
Definition TanimotoSimilarity `{Toolkit} (bv1 bv2 : list bool) : result Qc :=
  if decide (length bv1 = length bv2) then
    let x := Qc_of_nat (NumOnBitsInCommon bv1 bv2) in
    let y := Qc_of_nat (NumOnBits bv1) in
    let z := Qc_of_nat (NumOnBits bv2) in
    if decide (y + z - x = 0)%Qc then Return empty_union
    else Return (x / (y + z - x))%Qc
  else Raise ValueError.
End Chem.

(** ** Notebook 3: scoring and the two sweeps *)

(** A Python number: an [int] or a [float]. *)
Inductive pynum : Type :=
  | PyInt (z : Z)
  | PyFloat (q : Qc).

Definition to_float (x : pynum) : Qc :=
  match x with
  | PyInt z => Qc_of_Z z
  | PyFloat q => q
  end.

Definition upadacitinib : string :=
  "CCC1CN(CC1C2=CN=C3N2C4=C(NC=C4)N=C3)C(=O)NCC(F)(F)F".

(** The values stored under the keys of [radius_results]. *)
Inductive pyobj : Type :=
  | PyList (items : list pynum)
  | PyLen (n : nat)
  | PyMean (x : Np.float64).

(** [d[key].append(x)]: only a list has [append]. *)
Definition append_to (d : dict string pyobj) (key : string) (x : pynum)
  : result (dict string pyobj) :=
  match get d key with
  | Some (PyList items) => Return (setitem d key (PyList (items ++ [x])))
  | Some _ => Raise AttributeError
  | None => Raise KeyError
  end.

(** [d[key] = np.mean(d[key])] *)
Definition replace_by_mean (d : dict string pyobj) (key : string)
  : result (dict string pyobj) :=
  match get d key with
  | Some (PyList items) =>
      Return (setitem d key (PyMean (Np.mean (to_float <$> items))))
  | Some (PyLen n) => Return (setitem d key (PyMean (Np.fin (Chem.Qc_of_nat n))))
  | Some (PyMean x) => Return (setitem d key (PyMean x))
  | None => Raise KeyError
  end.

Section scoring.
Context `{Toolkit}.

Definition tanimoto_similarity (smiles : json) (reference : string)
  : result pynum :=
  (* Get fingerprint params *)
  let fingerprint_radius_param := 2%nat in
  let fingerprint_nbits := 2048%nat in
  (* Handle the reference molecule *)
  reference_mol ← Chem.MolFromSmiles (JStr reference);
  reference_fingerprint ←
    Chem.GetMorganFingerprintAsBitVect reference_mol
      fingerprint_radius_param fingerprint_nbits;
  (* Validate the other molecule *)
  mol ← Chem.MolFromSmiles smiles;
  match mol with
  | None => Return (PyInt 0)
  | Some _ =>
      fingerprint ←
        Chem.GetMorganFingerprintAsBitVect mol
          fingerprint_radius_param fingerprint_nbits;
      (* Calculate and return the Tanimoto similarity *)
      similarity ← Chem.TanimotoSimilarity fingerprint reference_fingerprint;
      Return (PyFloat similarity)
  end.

(** [valid_smiles = [m for m in generated_molecules
                      if Chem.MolFromSmiles(m) is not None]] *)
Definition valid_smiles (generated_molecules : list json) : result (list json) :=
  filter_comp (λ m, mol ← Chem.MolFromSmiles m; Return (bool_decide (mol ≠ None)))
    generated_molecules.

(** One round of the scoring loop, for the string [smile].  In [if mol:]
    a molecule object counts as true (the class defines neither [__bool__]
    nor [__len__]); only [None] is false. *)
Definition score (reference : string) (radius_results : dict string pyobj)
    (smile : json) : result (dict string pyobj) :=
  mol ← Chem.MolFromSmiles smile;
  match mol with
  | Some m =>
      tanimoto ← tanimoto_similarity smile reference;
      let qed_score := Chem.qed m in
      radius_results ← append_to radius_results "tanimoto_similarity" tanimoto;
      append_to radius_results "qed_score" (PyFloat qed_score)
  | None => Return radius_results
  end.

(** The body of the sampling loop from the filter to the end of the
    scoring loop: the lists are still lists. *)
Definition scored_results (generated_molecules : list json) (reference : string)
  : result (dict string pyobj) :=
  let radius_results := [("tanimoto_similarity", PyList []); ("qed_score", PyList [])] in
  (* Filter out invalid SMILES strings *)
  valid ← valid_smiles generated_molecules;
  let radius_results := setitem radius_results "valid_smiles" (PyLen (length valid)) in
  (* Calculate Tanimoto similarity and QED score for each valid SMILES string *)
  for_each (score reference) valid radius_results.

(** The whole body: the two lists are replaced by their means. *)
Definition radius_results (generated_molecules : list json) (reference : string)
  : result (dict string pyobj) :=
  radius_results ← scored_results generated_molecules reference;
  (* Get the average of Tanimoto and QED scores *)
  radius_results ← replace_by_mean radius_results "tanimoto_similarity";
  replace_by_mean radius_results "qed_score".

(** The guided loop has the same body under another name. *)
Definition min_sim_results := radius_results.

(** [generated_molecules = response_json['generated'][0]], then iterated. *)
Definition sampling_generated (response_json : json) : result (list json) :=
  generated ← getitem_key response_json "generated";
  generated_molecules ← getitem_index generated 0;
  iterate generated_molecules.

(** [generated_molecules = [i['smiles'] for i in response_json['generated']]] *)
Definition guided_generated (response_json : json) : result (list json) :=
  generated ← getitem_key response_json "generated";
  items ← iterate generated;
  map_comp (λ i, getitem_key i "smiles") items.

(** One iteration of each sweep, from the parsed response on. *)
Definition sampling_iteration (response_json : json) : result (dict string pyobj) :=
  generated_molecules ← sampling_generated response_json;
  radius_results generated_molecules upadacitinib.

Definition guided_iteration (response_json : json) : result (dict string pyobj) :=
  generated_molecules ← guided_generated response_json;
  min_sim_results generated_molecules upadacitinib.

(** The sweeps: [results[radius] = radius_results] for each parameter
    value, the service being a function of the parameter. *)
Definition sweep (iteration : json → result (dict string pyobj))
    (service : Qc → json) (params : list Qc)
  : result (dict Qc (dict string pyobj)) :=
  for_each (λ results param,
      point ← iteration (service param);
      Return (setitem results param point))
    params [].

(** The same cell with [results] as the notebook has it: a dictionary
    that a cell of its own creates empty and that the loop updates in
    place.  When the cell ends, the dictionary is as the last completed
    round left it, whether the loop came to its end or an exception
    stopped it; the second component is that exception, if any. *)
Fixpoint sweep_in_place (iteration : json → result (dict string pyobj))
    (service : Qc → json) (params : list Qc)
    (results : dict Qc (dict string pyobj))
  : dict Qc (dict string pyobj) * option exn :=
  match params with
  | [] => (results, None)
  | param :: params' =>
      match iteration (service param) with
      | Return point =>
          sweep_in_place iteration service params' (setitem results param point)
      | Raise e => (results, Some e)
      end
  end.
End scoring.

(** The specification's formula for one component: the point at
    parameter [t] on the segment from [a] to [b]. *)
Definition lerp (t a b : Qc) : Qc := ((1 - t) * a + t * b)%Qc.

(** The parameter of row [i] among [n] rows: [t = i / (n - 1)]. *)
Definition param (n i : Z) : Qc := (Qc_of_Z i / Qc_of_Z (n - 1))%Qc.

(** A nested list of numbers with the given lengths along its axes. *)
Fixpoint has_shape (dims : list nat) (v : json) : Prop :=
  match dims with
  | [] => ∃ q, v = JNum q
  | d :: rest => ∃ items, v = JArr items ∧ length items = d ∧ Forall (has_shape rest) items
  end.

(** ** Responses and a toolkit for the examples *)

(** A [/hidden] response for three molecules of two hidden components. *)
Definition three_rows_response : json :=
  JObj [("hiddens",
         JArr [JArr [JArr [JNum (Qc_of_Z 1); JNum (Qc_of_Z 2)]];
               JArr [JArr [JNum (Qc_of_Z 3); JNum (Qc_of_Z 4)]];
               JArr [JArr [JNum (Qc_of_Z 5); JNum (Qc_of_Z 6)]]])].

(** A [/sampling] response: [generated] holds one list, for molecule 0. *)
Definition sampling_response (smiles : list string) : json :=
  JObj [("generated", JArr [JArr (JStr <$> smiles)])].

(** A [/generate] response: [generated] holds one object per molecule. *)
Definition guided_response (smiles : list string) : json :=
  JObj [("generated", JArr ((λ s, JObj [("smiles", JStr s)]) <$> smiles))].

(** What one iteration records when nothing was scored. *)
Definition nothing_valid : dict string pyobj :=
  [("tanimoto_similarity", PyMean Np.nan);
   ("qed_score", PyMean Np.nan);
   ("valid_smiles", PyLen 0)].

(** A toolkit that knows four molecules, each standing for itself; its
    fingerprint sets as many leading bits as the string has characters,
    and its coefficient on an empty union is 0. *)
Definition four_molecules : list string := ["C"; "CC"; "CCO"; upadacitinib].

Lemma zero_proportion : (0 ≤ 0)%Qc ∧ (0 ≤ 1)%Qc.
Proof. done. Qed.

Lemma length_leading_bits (m : string) (radius nBits : nat) :
  length ((λ i, bool_decide (i < String.length m)%nat) <$> seq 0 nBits) = nBits.
Proof. by rewrite length_fmap, length_seq. Qed.

Definition small_toolkit : Toolkit := {|
  Mol := string;
  parse s := if decide (s ∈ four_molecules) then Some s else None;
  fingerprint m radius nBits :=
    (λ i, bool_decide (i < String.length m)%nat) <$> seq 0 nBits;
  fingerprint_length := length_leading_bits;
  drug_likeness m := (Qc_of_Z 1 / Qc_of_Z 2)%Qc;
  empty_union := 0%Qc;
  empty_union_range := zero_proportion
|}.


(** ** Notebook 2, deduplication: [list(dict.fromkeys(generated))] *)

Definition dedup {K : Type} `{EqDecision K} (xs : list K) : list K :=
  keys (fromkeys xs ()).

(** The specification's wording, for comparison: the elements of [xs] in
    order, the element at position [i] being kept exactly when it does not
    occur at an earlier position. *)
Definition keep_if_first {K : Type} `{EqDecision K} (xs : list K)
    (ix : nat * K) : option K :=
  if decide (ix.2 ∈ take ix.1 xs) then None else Some ix.2.

Definition first_occurrences {K : Type} `{EqDecision K} (xs : list K) : list K :=
  omap (keep_if_first xs) (imap pair xs).

(** How many times [x] occurs in [l]. *)
Definition occurrences {K : Type} `{EqDecision K} (x : K) (l : list K) : nat :=
  length (filter (λ y, y = x) l).

(** Accumulator form of the loop inside [fromkeys], used in the proofs:
    the keys appended to a dictionary whose keys are [seen]. *)
Fixpoint fresh_keys {K : Type} `{EqDecision K} (seen xs : list K) : list K :=
  match xs with
  | [] => []
  | x :: xs' =>
      if decide (x ∈ seen) then fresh_keys seen xs'
      else x :: fresh_keys (seen ++ [x]) xs'
  end.

(** ** Notebook 2: the molecules shown and their legends *)

(** [molecules = [momelotinib] + list(dict.fromkeys(generated)) + [gandotinib]]
    for the strings the decoder generated. *)
Definition molecules (momelotinib gandotinib : string) (generated : list string)
  : list string :=
  [momelotinib] ++ dedup generated ++ [gandotinib].

(** [legends = ['momelotinib']
      + [f'Interpolated Molecule #{i+1}' for i in range(len(molecules) - 2)]
      + ['gandotinib']] *)
Definition legends (molecules : list string) : list string :=
  ["momelotinib"]
  ++ ((λ i, "Interpolated Molecule #" +:+ pretty.pretty (i + 1))
        <$> range (Z.of_nat (length molecules) - 2))
  ++ ["gandotinib"].

(** ** Quantities the further properties are stated with *)

(** The Tanimoto coefficient of two fingerprints of one length, as
    [Chem.TanimotoSimilarity] computes it. *)
Definition coefficient `{Toolkit} (bv1 bv2 : list bool) : Qc :=
  let x := Chem.Qc_of_nat (Chem.NumOnBitsInCommon bv1 bv2) in
  let y := Chem.Qc_of_nat (Chem.NumOnBits bv1) in
  let z := Chem.Qc_of_nat (Chem.NumOnBits bv2) in
  if decide (y + z - x = 0)%Qc then empty_union else (x / (y + z - x))%Qc.

(** The similarity of a parsed molecule to the parsed reference, with the
    fingerprint parameters of [tanimoto_similarity]. *)
Definition similarity_to `{Toolkit} (mr m : Mol) : Qc :=
  coefficient (fingerprint m 2 2048) (fingerprint mr 2 2048).

(** An array whose items are the numbers of a vector. *)
Definition vector_array (v : Np.vector) : Np.ndarray :=
  {| Np.shape := [length v]; Np.data := JNum <$> v |}.

(** The [hiddens] value for a list of hidden states, one singleton axis
    around each: the layout of the [/hidden] response and of the
    [/decode] request. *)
Definition hiddens_of (states : list Np.vector) : json :=
  JArr ((λ v, JArr [Np.of_vector v]) <$> states).

(** An array is well formed when it holds as many items as its shape
    asks for. *)
Definition well_formed (a : Np.ndarray) : Prop :=
  length (Np.data a) = Np.product (Np.shape a).

(** What an iteration records for a response of strings: the number of
    strings that parse, and the means of the similarity to the reference
    [mr] and of the drug-likeness over the molecules they parse to. *)
Definition record_of `{Toolkit} (mr : Mol) (smiles : list string)
  : dict string pyobj :=
  [("tanimoto_similarity", PyMean (Np.mean (similarity_to mr <$> omap parse smiles)));
   ("qed_score", PyMean (Np.mean (drug_likeness <$> omap parse smiles)));
   ("valid_smiles", PyLen (length (omap parse smiles)))].

(** ** The model at work *)

(** The rows of a result as plain fractions, for display. *)
Definition fractions (r : result (list Np.vector)) : result (list (list Q)) :=
  (λ rows : list (list Qc), (λ row : list Qc, this <$> row) <$> rows) <$> r.

Example dedup_order : dedup ["b"; "a"; "b"; "c"; "a"] = ["b"; "a"; "c"].
Proof. reflexivity. Qed.

Example first_occurrences_order :
  first_occurrences ["b"; "a"; "b"; "c"; "a"] = ["b"; "a"; "c"].
Proof. reflexivity. Qed.

(** Three rows from [(0, 4)] to [(2, 0)] (shown as plain fractions). *)
Example interpolate_three_rows :
  fractions (interpolate [Qc_of_Z 0; Qc_of_Z 4] [Qc_of_Z 2; Qc_of_Z 0] 3)
  = Return [[0%Q; 4%Q]; [1%Q; 2%Q]; [2%Q; 0%Q]].
Proof. vm_compute. reflexivity. Qed.

(** Four rows: the parameters are 0, 1/3, 2/3 and 1. *)
Example interpolate_thirds :
  fractions (interpolate [Qc_of_Z 0] [Qc_of_Z 1] 4)
  = Return [[0%Q]; [(1 # 3)%Q]; [(2 # 3)%Q]; [1%Q]].
Proof. vm_compute. reflexivity. Qed.

(** [range(0)] is empty: nothing is divided and nothing is produced. *)
Example interpolate_no_rows :
  interpolate [Qc_of_Z 0; Qc_of_Z 4] [Qc_of_Z 2; Qc_of_Z 0] 0 = Return [].
Proof. reflexivity. Qed.

(** Vectors of lengths 3 and 2 cannot be broadcast together. *)
Example interpolate_unequal_lengths :
  interpolate [Qc_of_Z 1; Qc_of_Z 2; Qc_of_Z 3] [Qc_of_Z 1; Qc_of_Z 2] 2
  = Raise ValueError.
Proof. reflexivity. Qed.

(** For a single molecule [squeeze] also removes the molecule axis, and
    the two "rows" are the first two numbers of its hidden state. *)
Example one_molecule_gives_scalars :
  extract_hidden_rows
    (JObj [("hiddens", JArr [JArr [JArr [JNum (Qc_of_Z 7); JNum (Qc_of_Z 8)]]])])
  = Return ({| Np.shape := []; Np.data := [JNum (Qc_of_Z 7)] |},
            {| Np.shape := []; Np.data := [JNum (Qc_of_Z 8)] |}).
Proof. reflexivity. Qed.

Example ragged_hiddens :
  extract_hidden_rows
    (JObj [("hiddens", JArr [JArr [JNum (Qc_of_Z 1); JNum (Qc_of_Z 2)];
                             JArr [JNum (Qc_of_Z 3)]])])
  = Raise ValueError.
Proof. reflexivity. Qed.

Example empty_request :
  interpolated_hiddens_json [] 0 = Return (JObj [("hiddens", JArr []); ("mask", JArr [])]).
Proof. reflexivity. Qed.

(** ** Deduplication: proofs *)

Section dedup_facts.
Context {K : Type} `{EqDecision K}.
Implicit Types (xs seen : list K) (d : dict K ()).

Lemma keys_setitem_old {V : Type} (d : dict K V) k v :
  k ∈ keys d → keys (setitem d k v) = keys d.
Proof.
  induction d as [|[k' v'] d IH]; simpl.
  - by intros ?%elem_of_nil.
  - intros Hin. case_decide; simpl; [done|].
    f_equal. apply IH. apply elem_of_cons in Hin as [->|]; done.
Qed.

Lemma keys_setitem_new {V : Type} (d : dict K V) k v :
  k ∉ keys d → keys (setitem d k v) = keys d ++ [k].
Proof.
  induction d as [|[k' v'] d IH]; simpl; [done|].
  intros Hnin. apply not_elem_of_cons in Hnin as [Hne Hnin].
  case_decide; [congruence|]. simpl. f_equal. by apply IH.
Qed.

Lemma keys_foldl_setitem xs d :
  keys (foldl (λ d k, setitem d k ()) d xs) = keys d ++ fresh_keys (keys d) xs.
Proof.
  revert d. induction xs as [|x xs IH]; intros d; simpl.
  - by rewrite app_nil_r.
  - rewrite IH. case_decide as Hin.
    + by rewrite keys_setitem_old.
    + rewrite keys_setitem_new by done. by rewrite <-app_assoc.
Qed.

Lemma dedup_fresh_keys xs : dedup xs = fresh_keys [] xs.
Proof. unfold dedup, fromkeys. by rewrite keys_foldl_setitem. Qed.

Lemma fresh_keys_ext seen seen' xs :
  (∀ y, y ∈ seen ↔ y ∈ seen') → fresh_keys seen xs = fresh_keys seen' xs.
Proof.
  revert seen seen'. induction xs as [|x xs IH]; intros seen seen' Heq; [done|].
  simpl. destruct (decide (x ∈ seen)) as [Hin|Hnin].
  - rewrite decide_True by (by apply Heq). by apply IH.
  - rewrite decide_False by (by rewrite <-Heq). f_equal. apply IH.
    intros y. rewrite !elem_of_app. by rewrite Heq.
Qed.

Lemma fresh_keys_indexed pre xs :
  fresh_keys pre xs
  = omap (keep_if_first (pre ++ xs)) (imap (λ i x, (length pre + i, x)%nat) xs).
Proof.
  revert pre. induction xs as [|x xs IH]; intros pre; [done|].
  rewrite imap_cons. cbn [omap list_omap]. unfold keep_if_first at 1. simpl.
  rewrite Nat.add_0_r, take_app_length.
  assert (Htl : omap (keep_if_first (pre ++ x :: xs))
                  (imap ((λ i y, (length pre + i, y)%nat) ∘ S) xs)
                = fresh_keys (pre ++ [x]) xs).
  { rewrite IH, <-app_assoc. simpl. f_equal. apply imap_ext.
    intros i y _. simpl. rewrite length_app. simpl. f_equal. lia. }
  rewrite Htl. case_decide as Hin; [|done].
  apply fresh_keys_ext. intros y. rewrite elem_of_app, list_elem_of_singleton.
  split; [by left|]. by intros [?| ->].
Qed.

Lemma dedup_first_occurrences xs : dedup xs = first_occurrences xs.
Proof.
  rewrite dedup_fresh_keys, (fresh_keys_indexed [] xs). done.
Qed.

Lemma elem_of_fresh_keys seen xs y :
  y ∈ fresh_keys seen xs ↔ y ∈ xs ∧ y ∉ seen.
Proof.
  revert seen. induction xs as [|x xs IH]; intros seen; simpl.
  - rewrite !elem_of_nil. tauto.
  - case_decide as Hin.
    + rewrite IH, elem_of_cons. split; [tauto|].
      intros [[->|?] ?]; tauto.
    + rewrite !elem_of_cons, IH, elem_of_app, list_elem_of_singleton.
      destruct (decide (y = x)) as [->|]; tauto.
Qed.

Lemma NoDup_fresh_keys seen xs : NoDup (fresh_keys seen xs).
Proof.
  revert seen. induction xs as [|x xs IH]; intros seen; simpl.
  - constructor.
  - case_decide; [done|]. constructor; [|done].
    rewrite elem_of_fresh_keys, elem_of_app, list_elem_of_singleton. tauto.
Qed.

Lemma fresh_keys_sublist seen xs : fresh_keys seen xs `sublist_of` xs.
Proof.
  revert seen. induction xs as [|x xs IH]; intros seen; simpl; [done|].
  case_decide; [by apply sublist_cons|by apply sublist_skip].
Qed.

(** A list without duplicates, none of them seen before, passes unchanged. *)
Lemma fresh_keys_NoDup seen xs :
  NoDup xs → (∀ y, y ∈ xs → y ∉ seen) → fresh_keys seen xs = xs.
Proof.
  intros Hnd. revert seen. induction Hnd as [|x xs Hx Hnd IH]; intros seen Hs; [done|].
  simpl. rewrite decide_False by (apply Hs; left). f_equal.
  apply IH. intros y Hy. rewrite elem_of_app, list_elem_of_singleton.
  intros [Hin| ->]; [|done]. by apply (Hs y); [right|].
Qed.

Lemma NoDup_dedup xs : NoDup (dedup xs).
Proof. rewrite dedup_fresh_keys. apply NoDup_fresh_keys. Qed.

Lemma elem_of_dedup xs y : y ∈ dedup xs ↔ y ∈ xs.
Proof.
  rewrite dedup_fresh_keys, elem_of_fresh_keys, elem_of_nil. tauto.
Qed.

Lemma dedup_sublist xs : dedup xs `sublist_of` xs.
Proof. rewrite dedup_fresh_keys. apply fresh_keys_sublist. Qed.

Lemma dedup_NoDup_id xs : NoDup xs → dedup xs = xs.
Proof.
  intros. rewrite dedup_fresh_keys. apply fresh_keys_NoDup; [done|].
  intros y _. apply not_elem_of_nil.
Qed.

Lemma filter_eq_absent (l : list K) y : y ∉ l → filter (λ z, z = y) l = [].
Proof.
  induction l as [|x l IH]; [done|].
  intros [Hne Hnin]%not_elem_of_cons.
  rewrite filter_cons_False by congruence. by apply IH.
Qed.

(** In a duplicate-free list every member is found at exactly one index. *)
Lemma NoDup_occurrences (l : list K) y :
  NoDup l → y ∈ l → occurrences y l = 1%nat.
Proof.
  unfold occurrences. induction 1 as [|x l Hx Hnd IH]; [by intros ?%elem_of_nil|].
  intros Hin. rewrite filter_cons. case_decide as Heq.
  - subst x. simpl. by rewrite filter_eq_absent.
  - apply elem_of_cons in Hin as [->|Hin]; [done|]. by apply IH.
Qed.
End dedup_facts.

(** ** C4 *)

(** C4. Deduplication of a sequence of SMILES strings keeps exactly the
    first occurrence of every string, at its place in the order: the result
    is the list of first occurrences, it has no duplicates, it has the same
    members as the input, and it is a subsequence of the input.  On the
    specification's example it gives [a, b, c]. *)
Theorem dedup_keeps_first_occurrences (xs : list string) :
  dedup xs = first_occurrences xs ∧
  NoDup (dedup xs) ∧
  (∀ x, x ∈ dedup xs ↔ x ∈ xs) ∧
  dedup xs `sublist_of` xs ∧
  dedup ["a"; "b"; "a"; "c"; "b"] = ["a"; "b"; "c"].
Proof.
  split; [apply dedup_first_occurrences|].
  split; [apply NoDup_dedup|].
  split; [intros x; apply elem_of_dedup|].
  split; [apply dedup_sublist|reflexivity].
Qed.

(** ** C10 *)

(** C10. Deduplication is idempotent, and every member of its result
    occurs there exactly once. *)
Theorem dedup_idempotent (xs : list string) :
  dedup (dedup xs) = dedup xs ∧
  ∀ x, x ∈ dedup xs → occurrences x (dedup xs) = 1%nat.
Proof.
  split.
  - apply dedup_NoDup_id, NoDup_dedup.
  - intros x Hx. by apply NoDup_occurrences; [apply NoDup_dedup|].
Qed.

(** An instance: a string that occurs twice in the input occurs once in
    the result. *)
Lemma dedup_idempotent_witness :
  dedup (dedup ["CCO"; "CC"; "CCO"]) = dedup ["CCO"; "CC"; "CCO"] ∧
  occurrences "CCO" (dedup ["CCO"; "CC"; "CCO"]) = 1%nat.
Proof.
  destruct (dedup_idempotent ["CCO"; "CC"; "CCO"]) as [Hidem Honce].
  split; [exact Hidem|]. apply Honce.
  change ("CCO" ∈ ["CCO"; "CC"]). by left.
Defined.

(** ** Loops and comprehensions: general facts *)

Section loops.
Context {A B : Type}.

Lemma bind_Return (m : result A) (f : A → result B) (b : B) :
  m ≫= f = Return b → ∃ a, m = Return a ∧ f a = Return b.
Proof. destruct m as [a|e]; [|done]. intros Hf. by exists a. Qed.

Lemma map_comp_Return (f : A → result B) (g : A → B) xs :
  (∀ x, x ∈ xs → f x = Return (g x)) → map_comp f xs = Return (g <$> xs).
Proof.
  induction xs as [|x xs IH]; intros Hf; [done|].
  simpl. rewrite (Hf x) by left. simpl.
  rewrite IH; [done|]. intros y Hy. apply Hf. by right.
Qed.

Lemma for_each_ext {S : Type} (body body' : S → A → result S) xs acc :
  (∀ s x, body s x = body' s x) → for_each body xs acc = for_each body' xs acc.
Proof.
  intros Hb. revert acc. induction xs as [|x xs IH]; intros acc; [done|].
  simpl. rewrite Hb. destruct (body' acc x); simpl; [apply IH|done].
Qed.

(** A loop that appends one computed item per round is a comprehension. *)
Lemma for_each_append (f : A → result B) xs acc :
  for_each (λ acc x, y ← f x; Return (acc ++ [y])) xs acc
  = ys ← map_comp f xs; Return (acc ++ ys).
Proof.
  revert acc. induction xs as [|x xs IH]; intros acc; simpl.
  - by rewrite app_nil_r.
  - destruct (f x) as [y|e]; simpl; [|done].
    rewrite IH. destruct (map_comp f xs) as [ys|e]; simpl; [|done].
    by rewrite <-app_assoc.
Qed.
End loops.

(** ** Interpolation: proofs *)

Section interpolation_facts.
Implicit Types (A B : Np.vector) (n i : Z) (t a b : Qc).

Lemma length_scale t A : length (Np.scale t A) = length A.
Proof. apply length_fmap. Qed.

Lemma add_scale_lerp t A B :
  length A = length B →
  Np.add (Np.scale (1 - t) A) (Np.scale t B) = Return (zip_with (lerp t) A B).
Proof.
  intros Hlen. unfold Np.add.
  rewrite decide_True by (by rewrite !length_scale).
  unfold Np.scale. by rewrite zip_with_fmap_l, zip_with_fmap_r.
Qed.

Lemma interpolate_rows A B n :
  length A = length B → n ≠ 1 →
  interpolate A B n = Return ((λ i, zip_with (lerp (param n i)) A B) <$> range n).
Proof.
  intros Hlen Hn. unfold interpolate.
  pose (row := λ i, t ← truediv i (n - 1);
                    Np.add (Np.scale (1 - t) A) (Np.scale t B)).
  rewrite (for_each_ext _ (λ acc i, y ← row i; Return (acc ++ [y])));
    [|by intros acc i; unfold row; destruct (truediv i (n - 1))].
  rewrite for_each_append. unfold row.
  rewrite (map_comp_Return _ (λ i, zip_with (lerp (param n i)) A B)); [done|].
  intros i _. unfold truediv. rewrite decide_False by lia. simpl.
  by apply add_scale_lerp.
Qed.

Lemma lookup_range n (i : nat) :
  (i < Z.to_nat n)%nat → range n !! i = Some (Z.of_nat i).
Proof. intros Hi. unfold range. by rewrite lookup_seqZ_lt by lia. Qed.

(** ** C2 *)

(** C2, as the notebook behaves.  With [n = 1] the loop fails in its first
    round, at [t = i / (n_interp - 1)], with Python's own
    [ZeroDivisionError], whatever the two vectors are; no row is produced.
    Nothing guards the count: for [n <= 0] the loop does not run and the
    result is empty, and for vectors of one length [n = 1] is the only
    count that fails. *)
Theorem interpolate_one_ZeroDivisionError A B :
  interpolate A B 1 = Raise ZeroDivisionError ∧
  exn_name ZeroDivisionError ≠ "DegenerateInputError" ∧
  (∀ n, n ≤ 0 → interpolate A B n = Return []) ∧
  (∀ n, length A = length B → n ≠ 1 → ∃ rows, interpolate A B n = Return rows).
Proof.
  split; [reflexivity|]. split; [discriminate|]. split.
  - intros n Hn. unfold interpolate, range, seqZ.
    by replace (Z.to_nat n) with 0%nat by lia.
  - intros n Hlen Hn. eexists. by apply interpolate_rows.
Qed.

(** An instance: counts 1, 0 and 2 between two one-component vectors. *)
Lemma interpolate_one_ZeroDivisionError_witness :
  interpolate [Qc_of_Z 0] [Qc_of_Z 1] 1 = Raise ZeroDivisionError ∧
  interpolate [Qc_of_Z 0] [Qc_of_Z 1] 0 = Return [] ∧
  ∃ rows, interpolate [Qc_of_Z 0] [Qc_of_Z 1] 2 = Return rows.
Proof.
  destruct (interpolate_one_ZeroDivisionError [Qc_of_Z 0] [Qc_of_Z 1])
    as (Hone & _ & Hnone & Hmore).
  split; [exact Hone|]. split; [apply Hnone; lia|apply Hmore; [reflexivity|lia]].
Defined.

(** C2, as stated, fails: the exception raised for [n = 1] is not a
    [DegenerateInputError]. *)
Lemma interpolate_one_not_DegenerateInputError :
  ¬ ∃ e, interpolate [Qc_of_Z 0] [Qc_of_Z 1] 1 = Raise e
         ∧ exn_name e = "DegenerateInputError".
Proof.
  intros (e & Heq & Hname).
  change (@Raise (list (list Qc)) ZeroDivisionError = Raise e) in Heq.
  injection Heq as <-. discriminate Hname.
Qed.

End interpolation_facts.

(** ** Interpolation on binary64: proofs *)

Section binary64_facts.
Import PrimFloat SpecFloat.

(** Four rows from 0.0 to 1.0: the parameters are 0, 1/3, 2/3 and 1,
    each rounded. *)
Example binary64_thirds :
  Binary64.interpolate [0]%float [1]%float 4
  = Return [[0]; [0x1.5555555555555p-2]; [0x1.5555555555555p-1]; [1]]%float.
Proof. by vm_compute. Qed.

(** An infinite component of one endpoint makes the other endpoint
    [nan]: at [t = 0] the loop multiplies it by 0.0. *)
Example binary64_infinite_endpoint :
  Binary64.interpolate [1]%float [infinity] 2 = Return [[nan]; [infinity]].
Proof. by vm_compute. Qed.

(** A finite float is a zero or has a mantissa and an exponent. *)
Lemma finite_cases (x : float) :
  is_finite x = true →
  (∃ s, FloatOps.Prim2SF x = S754_zero s) ∨ (∃ s m e, FloatOps.Prim2SF x = S754_finite s m e).
Proof.
  unfold is_finite, is_nan, is_infinity.
  rewrite !FloatAxioms.eqb_spec, FloatAxioms.abs_spec.
  destruct (FloatOps.Prim2SF x) as [s|[]| |s m e] eqn:Hx; eauto;
    intros Hfin; by vm_compute in Hfin.
Qed.

(** Floats with the same specification are the same float. *)
Lemma Prim2SF_inj (x y : float) : FloatOps.Prim2SF x = FloatOps.Prim2SF y → x = y.
Proof.
  intros Hxy. rewrite <-(FloatAxioms.SF2Prim_Prim2SF x), <-(FloatAxioms.SF2Prim_Prim2SF y).
  by rewrite Hxy.
Qed.


Lemma SFcompare_refl (s : bool) (m : positive) (e : Z) :
  SFcompare (S754_finite s m e) (S754_finite s m e) = Some Eq.
Proof.
  unfold SFcompare. rewrite Z.compare_refl, Pos.compare_cont_refl. by destruct s.
Qed.

Lemma same_number_refl (x : float) : is_finite x = true → Binary64.same_number x x.
Proof.
  intros Hx. unfold Binary64.same_number. rewrite FloatAxioms.eqb_spec. unfold SFeqb.
  destruct (finite_cases x Hx) as [[s ->]|(s & m & e & ->)]; [done|].
  by rewrite SFcompare_refl.
Qed.

(** Adding a zero leaves a finite number as it is, up to the sign of a
    zero. *)
Lemma add_zero_r (x y : float) (s : bool) :
  is_finite x = true → FloatOps.Prim2SF y = S754_zero s →
  Binary64.same_number (x + y) x.
Proof.
  intros Hx Hy. unfold Binary64.same_number.
  rewrite FloatAxioms.eqb_spec, FloatAxioms.add_spec, Hy. unfold FloatAxioms.SF64add, SFeqb.
  destruct (finite_cases x Hx) as [[sx ->]|(sx & m & e & ->)].
  - by destruct sx, s.
  - cbn [SFadd]. by rewrite SFcompare_refl.
Qed.

Lemma add_zero_l (x y : float) (s : bool) :
  is_finite y = true → FloatOps.Prim2SF x = S754_zero s →
  Binary64.same_number (x + y) y.
Proof.
  intros Hy Hx. unfold Binary64.same_number.
  rewrite FloatAxioms.eqb_spec, FloatAxioms.add_spec, Hx. unfold FloatAxioms.SF64add, SFeqb.
  destruct (finite_cases y Hy) as [[sy ->]|(sy & m & e & ->)].
  - by destruct sy, s.
  - cbn [SFadd]. by rewrite SFcompare_refl.
Qed.

(** 0.0 times a finite number is a zero. *)
Lemma mul_zero_l (y : float) :
  is_finite y = true → ∃ s, FloatOps.Prim2SF (0 * y) = S754_zero s.
Proof.
  intros Hy. rewrite FloatAxioms.mul_spec. unfold FloatAxioms.SF64mul.
  change (FloatOps.Prim2SF 0) with (S754_zero false).
  destruct (finite_cases y Hy) as [[s ->]|(s & m & e & ->)]; by eexists.
Qed.


(** A mantissa that fits its exponent is not shifted by rounding. *)
Lemma shr_fexp_canonical (m : positive) (e : Z) :
  canonical_mantissa FloatOps.prec FloatOps.emax m e = true →
  shr_fexp FloatOps.prec FloatOps.emax (Zpos m) e loc_Exact
  = ({| shr_m := Zpos m; shr_r := false; shr_s := false |}, e).
Proof.
  unfold canonical_mantissa. intros Hc%Z.eqb_eq.
  unfold shr_fexp. cbn [Zdigits2]. rewrite Hc, Z.sub_diag. reflexivity.
Qed.

Lemma digits2_pos_double (p : positive) :
  Z.pos (digits2_pos p~0) = Z.pos (digits2_pos p) + 1.
Proof. change (digits2_pos p~0) with (Pos.succ (digits2_pos p)). lia. Qed.

(** The product of the mantissa of 1.0 with a mantissa that fits is
    shifted back by the 52 bits it has gained. *)
Lemma shr_fexp_shifted (m : positive) (e : Z) :
  canonical_mantissa FloatOps.prec FloatOps.emax m e = true →
  shr_fexp FloatOps.prec FloatOps.emax (Zpos (4503599627370496 * m)) (-52 + e) loc_Exact
  = ({| shr_m := Zpos m; shr_r := false; shr_s := false |}, e).
Proof.
  unfold canonical_mantissa. intros Hc%Z.eqb_eq.
  assert (Hd : Z.pos (digits2_pos (4503599627370496 * m)) = Z.pos (digits2_pos m) + 52).
  { let shifted := eval cbv in (4503599627370496 * m)%positive in
    change (4503599627370496 * m)%positive with shifted.
    rewrite !digits2_pos_double. lia. }
  unfold shr_fexp. cbn [Zdigits2]. rewrite Hd.
  replace (Z.pos (digits2_pos m) + 52 + (-52 + e)) with (Z.pos (digits2_pos m) + e) by lia.
  rewrite Hc. replace (e - (-52 + e)) with 52 by lia.
  cbv [shr shr_record_of_loc]. replace (-52 + e + 52) with e by lia. reflexivity.
Qed.

(** 1.0 times a float is that float: nothing is rounded away. *)
Lemma mul_one_l (x : float) : (1 * x)%float = x.
Proof.
  apply Prim2SF_inj. rewrite FloatAxioms.mul_spec. unfold FloatAxioms.SF64mul.
  change (FloatOps.Prim2SF 1) with (S754_finite false 4503599627370496 (-52)).
  pose proof (FloatAxioms.Prim2SF_valid x) as Hvalid.
  destruct (FloatOps.Prim2SF x) as [s|s| |s m e]; [done..|].
  cbn [SFmul xorb]. cbn [valid_binary] in Hvalid. unfold bounded in Hvalid.
  apply andb_prop in Hvalid as [Hc Hle].
  unfold binary_round_aux. rewrite shr_fexp_shifted by done.
  cbn [shr_m loc_of_shr_record round_nearest_even].
  rewrite shr_fexp_canonical by done. cbn [shr_m]. by rewrite Hle.
Qed.


Lemma div_eucl_div_mod (a b : Z) : Z.div_eucl a b = (a / b, a mod b).
Proof. unfold Z.div, Z.modulo. by destruct (Z.div_eucl a b). Qed.

Lemma new_location_exact (nb_steps : Z) : new_location nb_steps 0 = loc_Exact.
Proof. unfold new_location. by destruct (Z.even nb_steps). Qed.

(** A positive integer divided by itself is 1.0. *)
Lemma quotient_same (p : positive) :
  Binary64.quotient (Z.pos p) (Z.pos p) = S754_finite false 4503599627370496 (-52).
Proof.
  unfold Binary64.quotient. cbn [Binary64.of_int SFdiv xorb]. unfold SFdiv_core_binary.
  replace (Zdigits2 (Z.pos p) + 0 - (Zdigits2 (Z.pos p) + 0)) with 0 by lia.
  change (Z.min (fexp FloatOps.prec FloatOps.emax 0) (0 - 0)) with (-53).
  change (0 - 0 - -53) with 53. cbv iota beta.
  rewrite Z.shiftl_mul_pow2 by lia. rewrite div_eucl_div_mod.
  rewrite (Z.mul_comm (Z.pos p)), Z.div_mul, Z.mod_mul by lia.
  rewrite new_location_exact. reflexivity.
Qed.

(** The first parameter is 0.0 and the last is 1.0, exactly. *)
Lemma binary64_param_first (n : Z) : 2 ≤ n → Binary64.param n 0 = 0%float.
Proof.
  intros Hn. unfold Binary64.param, Binary64.quotient.
  destruct (n - 1) as [|p|p] eqn:Hp; [lia| |lia]. reflexivity.
Qed.

Lemma binary64_param_last (n : Z) : 2 ≤ n → Binary64.param n (n - 1) = 1%float.
Proof.
  intros Hn. unfold Binary64.param.
  destruct (n - 1) as [|p|p] eqn:Hp; [lia| |lia]. rewrite quotient_same. reflexivity.
Qed.


(** The number of binary digits of a mantissa and its size. *)
Lemma digits2_pos_double_succ (p : positive) :
  Z.pos (digits2_pos p~1) = Z.pos (digits2_pos p) + 1.
Proof. change (digits2_pos p~1) with (Pos.succ (digits2_pos p)). lia. Qed.

Lemma digits2_pos_upper (p : positive) : Z.pos p < 2 ^ Z.pos (digits2_pos p).
Proof.
  induction p as [p IH|p IH|].
  - rewrite digits2_pos_double_succ, Z.pow_add_r by lia. lia.
  - rewrite digits2_pos_double, Z.pow_add_r by lia. lia.
  - done.
Qed.

Lemma digits2_pos_le (p : positive) (k : Z) :
  Z.pos p < 2 ^ k → Z.pos (digits2_pos p) ≤ k.
Proof.
  revert k. induction p as [p IH|p IH|]; intros k Hk.
  - destruct (decide (k ≤ 0)) as [Hneg|Hpos].
    + pose proof (Z.pow_le_mono_r 2 k 0). lia.
    + replace k with (Z.succ (k - 1)) in Hk by lia. rewrite Z.pow_succ_r in Hk by lia.
      rewrite digits2_pos_double_succ. specialize (IH (k - 1)). lia.
  - destruct (decide (k ≤ 0)) as [Hneg|Hpos].
    + pose proof (Z.pow_le_mono_r 2 k 0). lia.
    + replace k with (Z.succ (k - 1)) in Hk by lia. rewrite Z.pow_succ_r in Hk by lia.
      rewrite digits2_pos_double. specialize (IH (k - 1)). lia.
  - destruct (decide (k ≤ 0)) as [Hneg|Hpos]; [|simpl; lia].
    pose proof (Z.pow_le_mono_r 2 k 0). lia.
Qed.

Lemma Zdigits2_le (m k : Z) : 0 ≤ m < 2 ^ k → 0 ≤ k → Zdigits2 m ≤ k.
Proof.
  intros [Hm Hk] Hk0. destruct m as [|p|p]; [done| |lia]. by apply digits2_pos_le.
Qed.

Lemma shr_1_bounds (r : shr_record) :
  0 ≤ shr_m r → 0 ≤ shr_m (shr_1 r) ≤ shr_m r.
Proof. destruct r as [[|[p|p|]|p] r s]; simpl; lia. Qed.

Lemma iter_shr_1_bounds (p : positive) (r : shr_record) :
  0 ≤ shr_m r → 0 ≤ shr_m (iter_pos shr_1 p r) ≤ shr_m r.
Proof.
  revert r. induction p as [p IH|p IH|]; intros r Hr; cbn [iter_pos].
  - pose proof (shr_1_bounds r Hr). pose proof (IH (shr_1 r)).
    pose proof (IH (iter_pos shr_1 p (shr_1 r))). lia.
  - pose proof (IH r Hr). pose proof (IH (iter_pos shr_1 p r)). lia.
  - by apply shr_1_bounds.
Qed.

(** Shifting to the exponent that fits only lowers a mantissa, and the
    exponent it ends at is known. *)
Lemma shr_fexp_bounds (m e : Z) (l : location) :
  0 ≤ m →
  0 ≤ shr_m (shr_fexp FloatOps.prec FloatOps.emax m e l).1 ≤ m ∧
  (shr_fexp FloatOps.prec FloatOps.emax m e l).2
  = Z.max e (fexp FloatOps.prec FloatOps.emax (Zdigits2 m + e)).
Proof.
  intros Hm. unfold shr_fexp, shr.
  assert (Hrec : shr_m (shr_record_of_loc m l) = m) by (by destruct l as [|[]]).
  destruct (fexp FloatOps.prec FloatOps.emax (Zdigits2 m + e) - e) as [|p|p] eqn:Hshift;
    cbn [fst snd].
  - rewrite Hrec. lia.
  - pose proof (iter_shr_1_bounds p (shr_record_of_loc m l)). rewrite Hrec in *. lia.
  - rewrite Hrec. lia.
Qed.

Lemma round_nearest_even_bounds (m : Z) (l : location) :
  m ≤ round_nearest_even m l ≤ m + 1.
Proof. destruct l as [|[]]; simpl; try destruct (Z.even m); lia. Qed.

(** Rounding a number that is at most 1 does not overflow. *)
Lemma binary_round_aux_finite (sg : bool) (mx s : Z) (l : location) :
  0 ≤ mx ≤ 2 ^ s → 53 ≤ s ≤ 1074 →
  ∀ sg', binary_round_aux FloatOps.prec FloatOps.emax sg mx (- s) l ≠ S754_infinity sg'.
Proof.
  intros Hmx Hs sg'. unfold binary_round_aux.
  pose proof (shr_fexp_bounds mx (- s) l) as Hfirst.
  destruct (shr_fexp FloatOps.prec FloatOps.emax mx (- s) l) as [r1 e1].
  cbn [fst snd] in Hfirst. destruct Hfirst as [Hr1 He1]; [lia|].
  pose proof (round_nearest_even_bounds (shr_m r1) (loc_of_shr_record r1)) as Hround.
  set (mr := round_nearest_even (shr_m r1) (loc_of_shr_record r1)) in *.
  pose proof (shr_fexp_bounds mr e1 loc_Exact) as Hsecond.
  destruct (shr_fexp FloatOps.prec FloatOps.emax mr e1 loc_Exact) as [r2 e2].
  cbn [fst snd] in Hsecond. destruct Hsecond as [Hr2 He2]; [lia|].
  destruct (shr_m r2) as [|m|m]; [done| |done].
  destruct (Z.leb_spec e2 (FloatOps.emax - FloatOps.prec)) as [|Hover]; [done|].
  exfalso.
  assert (Hpow : 0 < 2 ^ s) by (apply Z.pow_pos_nonneg; lia).
  assert (Hdx : Zdigits2 mx ≤ s + 1).
  { apply Zdigits2_le; [|lia]. rewrite Z.pow_add_r by lia. lia. }
  assert (Hdr : Zdigits2 mr ≤ s + 2).
  { apply Zdigits2_le; [|lia]. rewrite Z.pow_add_r by lia. lia. }
  unfold fexp, emin, FloatOps.prec, FloatOps.emax in *. lia.
Qed.

Lemma quotient_finite (i m : positive) (sg : bool) :
  (i ≤ m)%positive → Binary64.quotient (Z.pos i) (Z.pos m) ≠ S754_infinity sg.
Proof.
  intros Him. unfold Binary64.quotient. cbn [Binary64.of_int SFdiv xorb].
  unfold SFdiv_core_binary.
  assert (Hd : Zdigits2 (Z.pos i) ≤ Zdigits2 (Z.pos m)).
  { apply Zdigits2_le; [|done]. pose proof (digits2_pos_upper m). cbn [Zdigits2]. lia. }
  set (e := Z.min (fexp FloatOps.prec FloatOps.emax
                     (Zdigits2 (Z.pos i) + 0 - (Zdigits2 (Z.pos m) + 0))) (0 - 0)).
  assert (He : -1074 ≤ e ≤ -53)
    by (unfold e, fexp, emin, FloatOps.prec, FloatOps.emax; lia).
  destruct (0 - 0 - e) as [|s|s] eqn:Hs; [lia| |lia].
  rewrite Z.shiftl_mul_pow2 by lia. rewrite div_eucl_div_mod.
  replace e with (- Z.pos s) by lia. apply binary_round_aux_finite; [|lia].
  split.
  - apply Z.div_pos; lia.
  - apply Z.div_le_upper_bound; [lia|]. apply Z.mul_le_mono_nonneg_r; lia.
Qed.

(** In the loop the division returns: the divisor is not 0 and the
    quotient is at most 1. *)
Lemma truediv_in_range (n i : Z) :
  2 ≤ n → 0 ≤ i ≤ n - 1 → Binary64.truediv i (n - 1) = Return (Binary64.param n i).
Proof.
  intros Hn Hi. unfold Binary64.truediv, Binary64.param.
  rewrite decide_False by lia.
  destruct (Binary64.quotient i (n - 1)) as [| sg | |] eqn:Hq; [done| |done..].
  exfalso. destruct (n - 1) as [|m|m] eqn:Hm; [lia| |lia].
  destruct i as [|i|i]; [done| |lia]. apply (quotient_finite i m sg); [lia|done].
Qed.


(** For [n >= 2] the division of the loop, [t = i / (n_interp - 1)],
    returns in every round: the divisor is not 0 and the quotient, at
    most 1, is within the range of binary64.  In the first round [t] is
    exactly 0.0 and in the last exactly 1.0. *)
Theorem division_in_loop (n i : Z) :
  2 ≤ n → i ∈ range n →
  ∃ t, Binary64.truediv i (n - 1) = Return t ∧
       (i = 0 → t = 0%float) ∧ (i = n - 1 → t = 1%float).
Proof.
  intros Hn [Hi0 Hin]%elem_of_seqZ. exists (Binary64.param n i).
  split; [apply truediv_in_range; lia|]. split; intros ->.
  - by apply binary64_param_first.
  - by apply binary64_param_last.
Qed.

Lemma division_in_loop_witness :
  ∃ t, Binary64.truediv 3 (4 - 1) = Return t ∧
       (3 = 0 → t = 0%float) ∧ (3 = 4 - 1 → t = 1%float).
Proof.
  apply (division_in_loop 4 3); [lia|].
  apply elem_of_seqZ. lia.
Defined.

(** At [t = 0] and [t = 1] the formula gives the endpoints, for finite
    numbers. *)
Lemma lerp_first (a b : float) :
  is_finite a = true → is_finite b = true →
  Binary64.same_number (Binary64.lerp 0 a b) a.
Proof.
  intros Ha Hb. unfold Binary64.lerp. change (1 - 0)%float with 1%float.
  rewrite mul_one_l. destruct (mul_zero_l b Hb) as [s Hs]. by apply (add_zero_r _ _ s).
Qed.

Lemma lerp_last (a b : float) :
  is_finite a = true → is_finite b = true →
  Binary64.same_number (Binary64.lerp 1 a b) b.
Proof.
  intros Ha Hb. unfold Binary64.lerp. change (1 - 1)%float with 0%float.
  rewrite mul_one_l. destruct (mul_zero_l a Ha) as [s Hs]. by apply (add_zero_l _ _ s).
Qed.

Lemma add_scale_binary64 (t : float) (A B : Binary64.vector) :
  length A = length B →
  Binary64.add (Binary64.scale (1 - t) A) (Binary64.scale t B)
  = Return (zip_with (Binary64.lerp t) A B).
Proof.
  intros Hlen. unfold Binary64.add, Binary64.scale.
  rewrite decide_True by (by rewrite !length_fmap).
  by rewrite zip_with_fmap_l, zip_with_fmap_r.
Qed.

Lemma interpolate_binary64_rows (A B : Binary64.vector) (n : Z) :
  length A = length B → 2 ≤ n →
  Binary64.interpolate A B n
  = Return ((λ i, zip_with (Binary64.lerp (Binary64.param n i)) A B) <$> range n).
Proof.
  intros Hlen Hn. unfold Binary64.interpolate.
  pose (row := λ i, t ← Binary64.truediv i (n - 1);
                    Binary64.add (Binary64.scale (1 - t) A) (Binary64.scale t B)).
  rewrite (for_each_ext _ (λ acc i, y ← row i; Return (acc ++ [y])));
    [|by intros acc i; unfold row; destruct (Binary64.truediv i (n - 1))].
  rewrite for_each_append. unfold row.
  rewrite (map_comp_Return _ (λ i, zip_with (Binary64.lerp (Binary64.param n i)) A B));
    [done|].
  intros i [Hi0 Hin]%elem_of_seqZ. rewrite truediv_in_range by lia. simpl.
  by apply add_scale_binary64.
Qed.

Lemma Forall2_lerp_first (A B : Binary64.vector) :
  length A = length B → Binary64.finite A → Binary64.finite B →
  Forall2 Binary64.same_number (zip_with (Binary64.lerp 0) A B) A.
Proof.
  intros Hlen HA. revert B Hlen.
  induction HA as [|a A Ha HA IH]; intros [|b B] Hlen HB; simplify_eq/=; [done|].
  inversion_clear HB as [|? ? Hb HB']. constructor; [by apply lerp_first|by apply IH].
Qed.

Lemma Forall2_lerp_last (A B : Binary64.vector) :
  length A = length B → Binary64.finite A → Binary64.finite B →
  Forall2 Binary64.same_number (zip_with (Binary64.lerp 1) A B) B.
Proof.
  intros Hlen HA. revert B Hlen.
  induction HA as [|a A Ha HA IH]; intros [|b B] Hlen HB; simplify_eq/=; [done|].
  inversion_clear HB as [|? ? Hb HB']. constructor; [by apply lerp_last|by apply IH].
Qed.

(** ** C1 *)

(** C1, on binary64.  For vectors [A] and [B] of the same length and
    [n >= 2], the interpolation loop returns exactly [n] rows; row [i]
    is [(1 - t) * A + t * B] with [t = i / (n - 1)], each operation
    rounded to binary64.  When every component of [A] and [B] is finite,
    row [0] equals [A] and row [n - 1] equals [B] as numbers, with no
    rounding error (a zero may come out with the other sign).  Nothing
    is said of monotonicity, which rounding breaks. *)
Theorem interpolate_binary64 (A B : Binary64.vector) (n : Z) :
  length A = length B → 2 ≤ n →
  ∃ rows,
    Binary64.interpolate A B n = Return rows ∧
    length rows = Z.to_nat n ∧
    (∀ i : nat, (i < Z.to_nat n)%nat → rows !! i = Some (Binary64.row_at A B n i)) ∧
    (Binary64.finite A → Binary64.finite B →
       ∃ first last,
         rows !! 0%nat = Some first ∧ rows !! (Z.to_nat n - 1)%nat = Some last ∧
         Forall2 Binary64.same_number first A ∧
         Forall2 Binary64.same_number last B).
Proof.
  intros Hlen Hn. eexists. split; [by apply interpolate_binary64_rows|].
  assert (Hrow : ∀ i : nat, (i < Z.to_nat n)%nat →
            ((λ k, zip_with (Binary64.lerp (Binary64.param n k)) A B) <$> range n) !! i
            = Some (Binary64.row_at A B n i)).
  { intros i Hi. by rewrite list_lookup_fmap, lookup_range. }
  split; [unfold range; by rewrite length_fmap, length_seqZ|]. split; [done|].
  intros HA HB. eexists _, _. split; [apply Hrow; lia|]. split; [apply Hrow; lia|].
  unfold Binary64.row_at. split.
  - change (Z.of_nat 0) with 0. rewrite binary64_param_first by done.
    by apply Forall2_lerp_first.
  - replace (Z.of_nat (Z.to_nat n - 1)) with (n - 1) by lia.
    rewrite binary64_param_last by done. by apply Forall2_lerp_last.
Qed.

(** An instance: three rows between two vectors of two components, one
    ascending and one descending. *)
Lemma interpolate_binary64_witness :
  ∃ rows,
    Binary64.interpolate [0; 4]%float [2; 0]%float 3 = Return rows ∧
    length rows = Z.to_nat 3 ∧
    (∀ i : nat, (i < Z.to_nat 3)%nat →
       rows !! i = Some (Binary64.row_at [0; 4]%float [2; 0]%float 3 i)) ∧
    (Binary64.finite [0; 4]%float → Binary64.finite [2; 0]%float →
       ∃ first last,
         rows !! 0%nat = Some first ∧ rows !! (Z.to_nat 3 - 1)%nat = Some last ∧
         Forall2 Binary64.same_number first [0; 4]%float ∧
         Forall2 Binary64.same_number last [2; 0]%float).
Proof. apply (interpolate_binary64 [0; 4]%float [2; 0]%float 3); [reflexivity|lia]. Defined.

(** Rounding breaks monotonicity.  Between [0.9] and [0.9] with four
    rows, row 1 is [0.9000000000000001]: above both endpoints, and above
    the rows that follow it. *)
Lemma interpolate_not_monotone :
  Binary64.interpolate [Binary64.nine_tenths] [Binary64.nine_tenths] 4
  = Return [[Binary64.nine_tenths]; [Binary64.above_nine_tenths];
            [Binary64.nine_tenths]; [Binary64.nine_tenths]] ∧
  (Binary64.above_nine_tenths <=? Binary64.nine_tenths)%float = false ∧
  ¬ Binary64.transitions_monotonically [Binary64.nine_tenths] [Binary64.nine_tenths]
      [[Binary64.nine_tenths]; [Binary64.above_nine_tenths];
       [Binary64.nine_tenths]; [Binary64.nine_tenths]].
Proof.
  split; [by vm_compute|]. split; [done|]. intros Hmono.
  destruct (Hmono 0%nat 1%nat 0%nat [Binary64.nine_tenths] [Binary64.above_nine_tenths]
              Binary64.nine_tenths Binary64.nine_tenths)
    as (x & x' & [= <-] & [= <-] & Hup & _); [lia|done..|].
  by destruct Hup as (_ & _ & Hle).
Qed.

End binary64_facts.


(** ** Arrays: proofs *)

Section array_facts.
Implicit Types (v : Np.vector) (rows : list Np.vector).

(** Cutting a concatenation of runs of length [d] gives the runs back. *)
Lemma chunks_of_join {X Y : Type} (f : list X → Y) (d : nat) (runs : list (list X)) :
  Forall (λ r, length r = d) runs →
  (λ i, f (take d (drop (i * d) (mjoin runs)))) <$> seq 0 (length runs) = f <$> runs.
Proof.
  induction 1 as [|r runs Hr _ IH]; [done|].
  cbn [length seq fmap list_fmap mjoin list_join]. f_equal.
  - rewrite Nat.mul_0_l, drop_0. by rewrite take_app_length'.
  - rewrite <-fmap_S_seq, <-list_fmap_compose, <-IH.
    apply list_fmap_ext. intros _ i _. simpl.
    by rewrite drop_app_add' by done.
Qed.

Lemma join_singletons {X : Type} (l : list X) : mjoin ((λ x, [x]) <$> l) = l.
Proof. induction l as [|x l IH]; [done|]. simpl. f_equal. apply IH. Qed.

Lemma tolist_at_1d (items : list json) :
  Np.tolist_at [length items] items = JArr items.
Proof.
  change (Np.tolist_at [length items] items)
    with (JArr ((λ i, default JNull (head (take 1 (drop (i * 1) items))))
                  <$> seq 0 (length items))).
  f_equal. trans ((λ c, default JNull (head c)) <$> ((λ x, [x]) <$> items)).
  - rewrite <-(chunks_of_join _ 1) by (by apply Forall_fmap, Forall_true).
    by rewrite join_singletons, length_fmap.
  - induction items as [|x items IH]; [done|]. simpl. f_equal. apply IH.
Qed.

Lemma tolist_at_row (d : nat) (items : list json) :
  length items = d → Np.tolist_at [1%nat; d] items = JArr [JArr items].
Proof.
  intros <-. cbn [Np.tolist_at seq fmap list_fmap]. do 2 f_equal.
  fold (Np.tolist_at [length items]).
  rewrite drop_0, take_ge by (simpl; lia). apply tolist_at_1d.
Qed.

Lemma shape_of_vector v : Np.shape_of (Np.of_vector v) = Some [length v].
Proof.
  destruct v as [|x v]; [done|].
  unfold Np.of_vector. cbn [fmap list_fmap Np.shape_of].
  assert (Hall : forallb (λ y, bool_decide (Np.shape_of y = Some [])) (JNum <$> v) = true).
  { induction v as [|y v IH]; [done|]. simpl. apply IH. }
  rewrite Hall. simpl. by rewrite length_fmap.
Qed.

Lemma leaves_vector v : Np.leaves (Np.of_vector v) = JNum <$> v.
Proof.
  unfold Np.of_vector. simpl.
  induction v as [|x v IH]; [done|]. simpl. f_equal. apply IH.
Qed.

Lemma shape_of_rows rows (d : nat) :
  Forall (λ r, length r = d) rows →
  Np.shape_of (JArr (Np.of_vector <$> rows))
  = Some (match rows with [] => [0%nat] | _ => [length rows; d] end).
Proof.
  intros Hrows. destruct Hrows as [|r rows Hr Hrows]; [done|].
  assert (Hall : forallb (λ y, bool_decide (Np.shape_of y = Some [d]))
                   (Np.of_vector <$> rows) = true).
  { induction Hrows as [|r' rows Hr' _ IH]; [done|].
    rewrite fmap_cons. cbn [forallb]. rewrite IH, andb_true_r.
    apply bool_decide_eq_true. by rewrite shape_of_vector, Hr'. }
  rewrite fmap_cons. cbn [Np.shape_of].
  rewrite shape_of_vector, Hr, Hall. cbn [length]. by rewrite length_fmap.
Qed.

Lemma leaves_rows rows :
  Np.leaves (JArr (Np.of_vector <$> rows)) = mjoin ((fmap JNum) <$> rows).
Proof.
  cbn [Np.leaves]. induction rows as [|r rows IH]; [done|].
  rewrite !fmap_cons. cbn [mjoin list_join]. rewrite leaves_vector. f_equal. apply IH.
Qed.

Lemma tolist_at_rows rows (d : nat) :
  Forall (λ r, length r = d) rows →
  Np.tolist_at [length rows; 1%nat; d] (mjoin ((fmap JNum) <$> rows))
  = JArr ((λ row, JArr [Np.of_vector row]) <$> rows).
Proof.
  intros Hrows.
  change (Np.tolist_at [length rows; 1%nat; d] (mjoin ((fmap JNum) <$> rows)))
    with (JArr ((λ i, Np.tolist_at [1%nat; d]
                        (take (Np.product [1%nat; d])
                           (drop (i * Np.product [1%nat; d])
                              (mjoin ((fmap JNum) <$> rows)))))
                  <$> seq 0 (length rows))).
  replace (Np.product [1%nat; d]) with d by (unfold Np.product; simpl; lia).
  f_equal. rewrite <-(length_fmap (fmap JNum) rows).
  rewrite (chunks_of_join (Np.tolist_at [1%nat; d]) d).
  - rewrite <-list_fmap_compose. apply Forall_fmap_ext_1.
    eapply Forall_impl; [|exact Hrows]. intros row Hrow. simpl.
    apply tolist_at_row. by rewrite length_fmap.
  - apply Forall_fmap. eapply Forall_impl; [|exact Hrows].
    intros row Hrow. simpl. by rewrite length_fmap.
Qed.

Lemma has_shape_vector v : has_shape [length v] (Np.of_vector v).
Proof.
  exists (JNum <$> v). split; [done|]. split; [by rewrite length_fmap|].
  apply Forall_fmap, Forall_true. intros q. by exists q.
Qed.

Lemma has_shape_rows rows (d : nat) :
  Forall (λ r, length r = d) rows →
  has_shape [length rows; 1%nat; d] (JArr ((λ row, JArr [Np.of_vector row]) <$> rows)).
Proof.
  intros Hrows. eexists. split; [done|]. split; [by rewrite length_fmap|].
  apply Forall_fmap. eapply Forall_impl; [|exact Hrows]. intros row Hrow.
  exists [Np.of_vector row]. split; [done|]. split; [done|].
  apply Forall_singleton. rewrite <-Hrow. apply has_shape_vector.
Qed.

Lemma mask_all_true n :
  (λ _ : Z, JArr [JBool true]) <$> range n = replicate (Z.to_nat n) (JArr [JBool true]).
Proof. unfold range. rewrite const_fmap with (y := JArr [JBool true]) by done.
  by rewrite length_seqZ. Qed.

(** The array handed to the decoder, for rows of one length. *)
Lemma interpolated_hiddens_tolist rows (d : nat) :
  Forall (λ r, length r = d) rows →
  ∃ hiddens, interpolated_hiddens rows = Return hiddens ∧
    Np.tolist hiddens = JArr ((λ row, JArr [Np.of_vector row]) <$> rows).
Proof.
  intros Hrows. unfold interpolated_hiddens, Np.array.
  rewrite (shape_of_rows rows d) by done. rewrite leaves_rows.
  destruct rows as [|r rows].
  - eexists. split; [reflexivity|]. reflexivity.
  - eexists. split; [reflexivity|].
    unfold Np.tolist. cbn [Np.shape Np.data take drop app].
    by apply (tolist_at_rows (r :: rows)).
Qed.

End array_facts.

(** ** C8 *)

(** C8. Packaging [n] interpolated vectors of [d] components each gives a
    request whose [hiddens] field is the list of the rows, each wrapped in
    a list of its own, so of shape [(n, 1, d)], and whose [mask] has [n]
    entries, each of them [[True]]. *)
Theorem decode_request_shape (interpolated_rows : list Np.vector)
    (n_interp : Z) (d : nat) :
  length interpolated_rows = Z.to_nat n_interp →
  Forall (λ row, length row = d) interpolated_rows →
  ∃ hiddens mask,
    interpolated_hiddens_json interpolated_rows n_interp
      = Return (JObj [("hiddens", hiddens); ("mask", mask)]) ∧
    hiddens = JArr ((λ row, JArr [Np.of_vector row]) <$> interpolated_rows) ∧
    has_shape [Z.to_nat n_interp; 1%nat; d] hiddens ∧
    mask = JArr (replicate (Z.to_nat n_interp) (JArr [JBool true])).
Proof.
  intros Hn Hrows.
  destruct (interpolated_hiddens_tolist interpolated_rows d Hrows)
    as (arr & Harr & Hlist).
  exists (Np.tolist arr), (JArr (replicate (Z.to_nat n_interp) (JArr [JBool true]))).
  split; [|split; [done|split; [|done]]].
  - unfold interpolated_hiddens_json. rewrite Harr. simpl.
    by rewrite mask_all_true.
  - rewrite Hlist, <-Hn. by apply has_shape_rows.
Qed.

(** An instance: three rows of two components. *)
Lemma decode_request_shape_witness :
  ∃ hiddens mask,
    interpolated_hiddens_json
      [[Qc_of_Z 0; Qc_of_Z 4]; [Qc_of_Z 1; Qc_of_Z 2]; [Qc_of_Z 2; Qc_of_Z 0]] 3
      = Return (JObj [("hiddens", hiddens); ("mask", mask)]) ∧
    hiddens = JArr ((λ row, JArr [Np.of_vector row]) <$>
      [[Qc_of_Z 0; Qc_of_Z 4]; [Qc_of_Z 1; Qc_of_Z 2]; [Qc_of_Z 2; Qc_of_Z 0]]) ∧
    has_shape [Z.to_nat 3; 1%nat; 2%nat] hiddens ∧
    mask = JArr (replicate (Z.to_nat 3) (JArr [JBool true])).
Proof.
  apply (decode_request_shape
           [[Qc_of_Z 0; Qc_of_Z 4]; [Qc_of_Z 1; Qc_of_Z 2]; [Qc_of_Z 2; Qc_of_Z 0]]
           3 2).
  - reflexivity.
  - repeat constructor.
Defined.

(** ** From the interpolation to the decode request *)

Lemma interpolated_rows_length (A B : Np.vector) (n : Z) :
  length A = length B →
  Forall (λ row, length row = length A)
    ((λ i, zip_with (lerp (param n i)) A B) <$> range n).
Proof.
  intros Hlen. apply Forall_fmap, Forall_true. intros i. simpl.
  by rewrite length_zip_with_l_eq.
Qed.

(** Interpolating between two hidden states of [d] components and
    packaging the rows gives a request of shape [(n, 1, d)]. *)
Lemma interpolate_then_package (A B : Np.vector) (n : Z) :
  length A = length B → 2 ≤ n →
  ∃ rows hiddens mask,
    interpolate A B n = Return rows ∧
    interpolated_hiddens_json rows n
      = Return (JObj [("hiddens", hiddens); ("mask", mask)]) ∧
    has_shape [Z.to_nat n; 1%nat; length A] hiddens.
Proof.
  intros Hlen Hn.
  pose proof (interpolated_rows_length A B n Hlen) as Hrows.
  destruct (interpolated_hiddens_tolist _ _ Hrows) as (arr & Harr & Hlist).
  eexists _, (Np.tolist arr), _. split; [apply interpolate_rows; [done|lia]|].
  split.
  - unfold interpolated_hiddens_json. rewrite Harr. reflexivity.
  - rewrite Hlist.
    replace (Z.to_nat n)
      with (length ((λ i, zip_with (lerp (param n i)) A B) <$> range n))
      by (unfold range; by rewrite length_fmap, length_seqZ).
    by apply has_shape_rows.
Qed.

(** ** The sweep keeps its parameters in order *)

Section sweep_facts.

Lemma sweep_loop_keys (iteration : json → result (dict string pyobj))
    (service : Qc → json) (params : list Qc) (acc results : dict Qc (dict string pyobj)) :
  for_each (λ results param,
      point ← iteration (service param);
      Return (setitem results param point)) params acc = Return results →
  keys results = keys acc ++ fresh_keys (keys acc) params.
Proof.
  revert acc. induction params as [|param params IH]; intros acc Hloop.
  - injection Hloop as <-. simpl. by rewrite app_nil_r.
  - cbn [for_each] in Hloop.
    apply bind_Return in Hloop as (acc' & Hstep & Hloop).
    apply bind_Return in Hstep as (point & _ & Hstep). injection Hstep as <-.
    rewrite (IH _ Hloop). simpl. case_decide as Hin.
    + by rewrite keys_setitem_old.
    + rewrite keys_setitem_new by done. by rewrite <-app_assoc.
Qed.

(** The records are keyed by the parameter values in the order in which
    each first occurs. *)
Lemma sweep_keys (iteration : json → result (dict string pyobj))
    (service : Qc → json) (params : list Qc) (results : dict Qc (dict string pyobj)) :
  sweep iteration service params = Return results →
  keys results = dedup params.
Proof.
  intros Hsweep. rewrite dedup_fresh_keys.
  by apply sweep_loop_keys in Hsweep.
Qed.

End sweep_facts.

(** ** Extraction: proofs *)

(** ** C3 *)

(** C3, as the notebooks behave.  The extractor returns whatever is stored
    under the key, unchecked, and a missing key is Python's [KeyError].
    For [hiddens], after conversion and [squeeze], entries 0 and 1 along
    the first remaining axis are taken: any length of at least 2 is
    accepted and the later rows are ignored; when no axis remains or its
    length is below 2, the indexing fails with [IndexError]. *)
Theorem extract_unchecked :
  (∀ fields key, get fields key = None →
     getitem_key (JObj fields) key = Raise KeyError) ∧
  (∀ fields key v, get fields key = Some v →
     getitem_key (JObj fields) key = Return v) ∧
  (∀ response hiddens arr r rest,
     getitem_key response "hiddens" = Return hiddens →
     Np.array hiddens = Return arr →
     Np.shape (Np.squeeze arr) = r :: rest →
     (2 ≤ r)%nat →
     extract_hidden_rows response
     = Return (Np.row (Np.squeeze arr) 0, Np.row (Np.squeeze arr) 1)) ∧
  (∀ response hiddens arr,
     getitem_key response "hiddens" = Return hiddens →
     Np.array hiddens = Return arr →
     (∀ r rest, Np.shape (Np.squeeze arr) = r :: rest → (r < 2)%nat) →
     extract_hidden_rows response = Raise IndexError).
Proof.
  split; [|split; [|split]].
  - intros fields key Hget. simpl. by rewrite Hget.
  - intros fields key v Hget. simpl. by rewrite Hget.
  - intros response hiddens arr r rest Hkey Harr Hshape Hr.
    unfold extract_hidden_rows. rewrite Hkey. simpl. rewrite Harr. simpl.
    unfold Np.item. rewrite Hshape.
    destruct (decide (0 < r)%nat) as [Hpos|Hzero]; [simpl|lia].
    destruct (decide (1 < r)%nat) as [Hbig|Hone]; [done|lia].
  - intros response hiddens arr Hkey Harr Hshort.
    unfold extract_hidden_rows. rewrite Hkey. simpl. rewrite Harr. simpl.
    unfold Np.item. destruct (Np.shape (Np.squeeze arr)) as [|r rest] eqn:Hshape; [done|].
    specialize (Hshort r rest eq_refl).
    destruct (decide (0 < r)%nat) as [Hpos|Hzero]; [simpl|done].
    destruct (decide (1 < r)%nat) as [Hbig|Hone]; [lia|done].
Qed.

(** An instance: the response for three molecules, and a response without
    the key. *)
Lemma extract_unchecked_witness :
  extract_hidden_rows three_rows_response
  = Return ({| Np.shape := [2%nat];
               Np.data := [JNum (Qc_of_Z 1); JNum (Qc_of_Z 2)] |},
            {| Np.shape := [2%nat];
               Np.data := [JNum (Qc_of_Z 3); JNum (Qc_of_Z 4)] |}) ∧
  getitem_key (JObj [("hidden", JArr [])]) "hiddens" = Raise KeyError.
Proof.
  destruct extract_unchecked as (Habsent & _ & Hrows & _). split.
  - pose (arr := {| Np.shape := [3%nat; 1%nat; 2%nat];
                    Np.data := JNum ∘ Qc_of_Z <$> [1; 2; 3; 4; 5; 6] |}).
    change (extract_hidden_rows three_rows_response
            = Return (Np.row (Np.squeeze arr) 0, Np.row (Np.squeeze arr) 1)).
    apply (Hrows three_rows_response
             (JArr [JArr [JArr [JNum (Qc_of_Z 1); JNum (Qc_of_Z 2)]];
                    JArr [JArr [JNum (Qc_of_Z 3); JNum (Qc_of_Z 4)]];
                    JArr [JArr [JNum (Qc_of_Z 5); JNum (Qc_of_Z 6)]]])
             arr 3%nat [2%nat]); [reflexivity|reflexivity|reflexivity|lia].
  - apply Habsent. reflexivity.
Defined.

(** C3, as stated, fails: a response with three rows is accepted, its
    first two rows are returned and the third is dropped; a response
    without the key fails with [KeyError]; and a value of the wrong rank is
    returned as it is. *)
Lemma three_rows_accepted :
  extract_hidden_rows three_rows_response
  = Return ({| Np.shape := [2%nat];
               Np.data := [JNum (Qc_of_Z 1); JNum (Qc_of_Z 2)] |},
            {| Np.shape := [2%nat];
               Np.data := [JNum (Qc_of_Z 3); JNum (Qc_of_Z 4)] |}) ∧
  ¬ (∃ e, extract_hidden_rows three_rows_response = Raise e
          ∧ exn_name e = "SchemaError") ∧
  extract_embeddings (JObj [("embedding", JArr [])]) = Raise KeyError ∧
  extract_embeddings (JObj [("embeddings", JNum (Qc_of_Z 5))])
  = Return (JNum (Qc_of_Z 5)).
Proof.
  split; [reflexivity|]. split; [|split; reflexivity].
  intros (e & Heq & _). discriminate Heq.
Qed.

(** ** Scoring and sweeps: proofs *)




Lemma TanimotoSimilarity_total `{Toolkit} (bv1 bv2 : list bool) :
  length bv1 = length bv2 → ∃ x, Chem.TanimotoSimilarity bv1 bv2 = Return x.
Proof.
  intros Hlen. unfold Chem.TanimotoSimilarity. rewrite decide_True by done.
  simpl. case_decide; eauto.
Qed.

Lemma append_to_tanimoto ts (qs c : pyobj) x :
  append_to [("tanimoto_similarity", PyList ts); ("qed_score", qs); ("valid_smiles", c)]
    "tanimoto_similarity" x
  = Return [("tanimoto_similarity", PyList (ts ++ [x])); ("qed_score", qs);
            ("valid_smiles", c)].
Proof. reflexivity. Qed.

Lemma append_to_qed (ts : pyobj) qs (c : pyobj) x :
  append_to [("tanimoto_similarity", ts); ("qed_score", PyList qs); ("valid_smiles", c)]
    "qed_score" x
  = Return [("tanimoto_similarity", ts); ("qed_score", PyList (qs ++ [x]));
            ("valid_smiles", c)].
Proof. reflexivity. Qed.

Section scoring_facts.
Context `{Toolkit}.
Implicit Types (smiles : list string) (reference : string).

Lemma tanimoto_similarity_valid s reference m mr :
  parse s = Some m → parse reference = Some mr →
  ∃ x, tanimoto_similarity (JStr s) reference = Return (PyFloat x).
Proof.
  intros Hs Hr. unfold tanimoto_similarity. simpl. rewrite Hr, Hs. simpl.
  destruct (TanimotoSimilarity_total (fingerprint m 2 2048) (fingerprint mr 2 2048))
    as [x Hx]; [by rewrite !fingerprint_length|].
  exists x. by rewrite Hx.
Qed.

(** The filter keeps the strings that parse, in order. *)
Lemma valid_smiles_strings smiles :
  valid_smiles (JStr <$> smiles)
  = Return (JStr <$> filter (λ s, is_Some (parse s)) smiles).
Proof.
  unfold valid_smiles. induction smiles as [|s smiles IH]; [done|].
  rewrite fmap_cons. cbn [filter_comp]. rewrite IH. simpl.
  rewrite filter_cons. destruct (parse s) as [m|] eqn:Hs.
  - rewrite decide_True by eauto. by rewrite bool_decide_eq_true_2.
  - rewrite decide_False by (by intros [? ?]). by rewrite bool_decide_eq_false_2 by auto.
Qed.

(** Whatever the response holds, what passes the filter is a string that
    parses. *)
Lemma valid_smiles_parse generated_molecules valid :
  valid_smiles generated_molecules = Return valid →
  Forall (λ v, ∃ s m, v = JStr s ∧ parse s = Some m) valid.
Proof.
  unfold valid_smiles. revert valid.
  induction generated_molecules as [|v g IH]; intros valid Hv.
  - simpl in Hv. injection Hv as <-. constructor.
  - cbn [filter_comp] in Hv.
    apply bind_Return in Hv as (b & Hb & Hv).
    apply bind_Return in Hv as (rest & Hrest & Hv).
    injection Hv as <-. specialize (IH rest Hrest).
    apply bind_Return in Hb as (mol & Hmol & Hb). injection Hb as <-.
    destruct v as [| | |s| |]; try discriminate Hmol.
    simpl in Hmol. injection Hmol as <-.
    destruct (parse s) as [m|] eqn:Hs.
    + rewrite bool_decide_eq_true_2 by done. constructor; [eauto|done].
    + by rewrite bool_decide_eq_false_2 by auto.
Qed.

Lemma score_valid reference s m x ts qs c :
  parse s = Some m →
  tanimoto_similarity (JStr s) reference = Return (PyFloat x) →
  score reference
    [("tanimoto_similarity", PyList ts); ("qed_score", PyList qs); ("valid_smiles", c)]
    (JStr s)
  = Return [("tanimoto_similarity", PyList (ts ++ [PyFloat x]));
            ("qed_score", PyList (qs ++ [PyFloat (Chem.qed m)]));
            ("valid_smiles", c)].
Proof.
  intros Hs Hx. unfold score. simpl Chem.MolFromSmiles. rewrite Hs.
  cbn [mbind result_bind]. rewrite Hx. cbn [mbind result_bind].
  rewrite append_to_tanimoto. cbn [mbind result_bind].
  by rewrite append_to_qed.
Qed.

(** The scoring loop appends one entry to each list per round. *)
Lemma score_loop reference mr valid ts qs c :
  parse reference = Some mr →
  Forall (λ v, ∃ s m, v = JStr s ∧ parse s = Some m) valid →
  ∃ ts' qs',
    for_each (score reference) valid
      [("tanimoto_similarity", PyList ts); ("qed_score", PyList qs); ("valid_smiles", c)]
    = Return [("tanimoto_similarity", PyList (ts ++ ts'));
              ("qed_score", PyList (qs ++ qs')); ("valid_smiles", c)] ∧
    length ts' = length valid ∧ length qs' = length valid.
Proof.
  intros Hr Hvalid. revert ts qs.
  induction Hvalid as [|v valid (s & m & -> & Hs) _ IH]; intros ts qs.
  - exists [], []. by rewrite !app_nil_r.
  - destruct (tanimoto_similarity_valid s reference m mr Hs Hr) as [x Hx].
    destruct (IH (ts ++ [PyFloat x]) (qs ++ [PyFloat (Chem.qed m)]))
      as (ts' & qs' & Hloop & Hts & Hqs).
    exists (PyFloat x :: ts'), (PyFloat (Chem.qed m) :: qs').
    split; [|by simpl; rewrite Hts, Hqs].
    cbn [for_each]. rewrite (score_valid reference s m x) by done.
    cbn [mbind result_bind]. rewrite Hloop. by rewrite <-!app_assoc.
Qed.

Lemma sampling_generated_response smiles :
  sampling_generated (sampling_response smiles) = Return (JStr <$> smiles).
Proof. reflexivity. Qed.

Lemma guided_generated_response smiles :
  guided_generated (guided_response smiles) = Return (JStr <$> smiles).
Proof.
  unfold guided_generated, guided_response.
  change (getitem_key (JObj [("generated", ?v)]) "generated") with (Return v).
  cbn [mbind result_bind iterate].
  rewrite (map_comp_Return _ (λ i, default JNull (get (match i with JObj f => f | _ => [] end) "smiles"))).
  - f_equal. rewrite <-list_fmap_compose. by apply list_fmap_ext.
  - intros i (s & -> & _)%list_elem_of_fmap. reflexivity.
Qed.

(** With nothing to score, both lists stay empty and their means are [nan]. *)
Lemma radius_results_nothing_valid smiles reference :
  Forall (λ s, parse s = None) smiles →
  radius_results (JStr <$> smiles) reference = Return nothing_valid.
Proof.
  intros Hnone. unfold radius_results, scored_results.
  rewrite valid_smiles_strings.
  replace (filter (λ s, is_Some (parse s)) smiles) with (@nil string); [done|].
  symmetry. induction Hnone as [|s smiles Hs _ IH]; [done|].
  rewrite filter_cons_False; [done|]. rewrite Hs. by intros [? ?].
Qed.

End scoring_facts.

(** ** C5 *)

(** C5. When none of the generated SMILES parses, the iteration of either
    sweep records [nan] as the mean similarity and as the mean QED, and a
    count of zero; [nan] is not the number zero. *)
Theorem no_valid_molecules_nan `{Toolkit} (smiles : list string) :
  Forall (λ s, parse s = None) smiles →
  sampling_iteration (sampling_response smiles) = Return nothing_valid ∧
  guided_iteration (guided_response smiles) = Return nothing_valid ∧
  get nothing_valid "tanimoto_similarity" = Some (PyMean Np.nan) ∧
  get nothing_valid "qed_score" = Some (PyMean Np.nan) ∧
  Np.mean [] = Np.nan ∧
  Np.nan ≠ Np.fin 0.
Proof.
  intros Hnone. repeat split; try done.
  - unfold sampling_iteration. rewrite sampling_generated_response.
    by apply radius_results_nothing_valid.
  - unfold guided_iteration. rewrite guided_generated_response.
    by apply radius_results_nothing_valid.
Qed.

(** ** C6 *)

(** C6. When the candidate does not parse and the reference does,
    [tanimoto_similarity] returns the integer 0; when the reference does
    not parse, the call fails with the binding's [ArgumentError], which
    nothing catches (the reference is handled first, so this is so whatever
    the candidate is). *)
Theorem tanimoto_similarity_invalid `{Toolkit} (candidate reference : string) :
  (parse candidate = None → is_Some (parse reference) →
     tanimoto_similarity (JStr candidate) reference = Return (PyInt 0)) ∧
  (parse reference = None →
     tanimoto_similarity (JStr candidate) reference = Raise ArgumentError).
Proof.
  split.
  - intros Hc [mr Hr]. unfold tanimoto_similarity. simpl. by rewrite Hr, Hc.
  - intros Hr. unfold tanimoto_similarity. simpl. by rewrite Hr.
Qed.

(** ** C7 *)


(** ** C9 *)

(** C9. In an iteration of either sweep, whenever the filter returns, the
    scoring loop returns too, and the similarity list and the QED list it
    leaves each hold exactly as many entries as the recorded count of valid
    SMILES: the second parse in the loop succeeds for every string the
    filter kept.  The reference molecule parses.  For a response of
    strings, the count is the number of strings that parse. *)
Theorem scores_in_lockstep `{Toolkit} (generated_molecules valid : list json)
    (reference : string) :
  is_Some (parse reference) →
  valid_smiles generated_molecules = Return valid →
  ∃ ts qs,
    scored_results generated_molecules reference
    = Return [("tanimoto_similarity", PyList ts); ("qed_score", PyList qs);
              ("valid_smiles", PyLen (length valid))] ∧
    length ts = length valid ∧
    length qs = length valid ∧
    ∀ smiles, generated_molecules = JStr <$> smiles →
      length valid = length (filter (λ s, is_Some (parse s)) smiles).
Proof.
  intros [mr Hr] Hvalid.
  destruct (score_loop reference mr valid [] [] (PyLen (length valid)) Hr
              (valid_smiles_parse _ _ Hvalid)) as (ts & qs & Hloop & Hts & Hqs).
  exists ts, qs. split; [|split; [done|split; [done|]]].
  - unfold scored_results. rewrite Hvalid. exact Hloop.
  - intros smiles ->. rewrite valid_smiles_strings in Hvalid.
    injection Hvalid as <-. by rewrite length_fmap.
Qed.

(** ** Instances on the small toolkit *)

Section instances.
Local Existing Instance small_toolkit.

Lemma no_valid_molecules_nan_witness :
  sampling_iteration (sampling_response ["C1CC"; "not a molecule"])
  = Return nothing_valid ∧
  guided_iteration (guided_response ["C1CC"; "not a molecule"])
  = Return nothing_valid ∧
  get nothing_valid "tanimoto_similarity" = Some (PyMean Np.nan) ∧
  get nothing_valid "qed_score" = Some (PyMean Np.nan) ∧
  Np.mean [] = Np.nan ∧
  Np.nan ≠ Np.fin 0.
Proof.
  apply (no_valid_molecules_nan ["C1CC"; "not a molecule"]).
  repeat constructor.
Defined.

Lemma tanimoto_similarity_invalid_witness :
  tanimoto_similarity (JStr "C1CC") "CCO" = Return (PyInt 0) ∧
  tanimoto_similarity (JStr "CC") "C1CC" = Raise ArgumentError.
Proof.
  split.
  - apply (tanimoto_similarity_invalid "C1CC" "CCO"); [reflexivity|by eexists].
  - apply (tanimoto_similarity_invalid "CC" "C1CC"). reflexivity.
Defined.


Lemma scores_in_lockstep_witness :
  ∃ ts qs,
    scored_results (JStr <$> ["CCO"; "C1CC"; "C"]) upadacitinib
    = Return [("tanimoto_similarity", PyList ts); ("qed_score", PyList qs);
              ("valid_smiles", PyLen (length [JStr "CCO"; JStr "C"]))] ∧
    length ts = length [JStr "CCO"; JStr "C"] ∧
    length qs = length [JStr "CCO"; JStr "C"] ∧
    ∀ smiles, JStr <$> ["CCO"; "C1CC"; "C"] = JStr <$> smiles →
      length [JStr "CCO"; JStr "C"]
      = length (filter (λ s, is_Some (parse s)) smiles).
Proof.
  apply (scores_in_lockstep (JStr <$> ["CCO"; "C1CC"; "C"]) [JStr "CCO"; JStr "C"]
           upadacitinib); [by eexists|reflexivity].
Defined.

End instances.


(** * Further properties of the notebooks' code *)

(** ** The molecules shown and their legends *)

Lemma append_inj_r (p s1 s2 : string) : p +:+ s1 = p +:+ s2 → s1 = s2.
Proof. induction p as [|c p IH]; simpl; [done|]. intros [=]. by apply IH. Qed.

Lemma length_range n : length (range n) = Z.to_nat n.
Proof. unfold range. apply length_seqZ. Qed.

Lemma NoDup_legends (ms : list string) : NoDup (legends ms).
Proof.
  unfold legends. apply list_relations.list.NoDup_app.
  split; [apply NoDup_singleton|]. split.
  - intros x ->%list_elem_of_singleton [Hin|Hin]%elem_of_app.
    + apply list_elem_of_fmap in Hin as (i & Hi & _). discriminate Hi.
    + apply list_elem_of_singleton in Hin. discriminate Hin.
  - apply list_relations.list.NoDup_app. split; [|split; [|apply NoDup_singleton]].
    + apply NoDup_fmap_2_strong; [|apply NoDup_seqZ].
      intros i j _ _ Heq%append_inj_r. apply (inj pretty.pretty) in Heq. lia.
    + intros x (i & -> & _)%list_elem_of_fmap Hin%list_elem_of_singleton.
      discriminate Hin.
Qed.

(** The grid shows the first endpoint, then every decoded molecule once,
    in the order of first appearance, then the second endpoint; the
    legends are as many as the molecules, pairwise distinct, and the
    [k]-th decoded molecule is labelled with the number [k]. *)
Theorem molecules_and_legends (momelotinib gandotinib : string)
    (generated : list string) :
  molecules momelotinib gandotinib generated
  = momelotinib :: dedup generated ++ [gandotinib] ∧
  length (molecules momelotinib gandotinib generated)
  = (length (dedup generated) + 2)%nat ∧
  length (legends (molecules momelotinib gandotinib generated))
  = length (molecules momelotinib gandotinib generated) ∧
  NoDup (legends (molecules momelotinib gandotinib generated)) ∧
  (length (molecules momelotinib gandotinib generated) ≤ length generated + 2)%nat ∧
  ∀ (k : nat) x, dedup generated !! k = Some x →
    molecules momelotinib gandotinib generated !! S k = Some x ∧
    legends (molecules momelotinib gandotinib generated) !! S k
    = Some ("Interpolated Molecule #" +:+ pretty.pretty (Z.of_nat (S k))).
Proof.
  assert (Hlen : length (molecules momelotinib gandotinib generated)
                 = (length (dedup generated) + 2)%nat).
  { unfold molecules. rewrite !length_app. simpl. lia. }
  split; [done|]. split; [done|].
  split; [|split; [apply NoDup_legends|split]].
  - unfold legends. rewrite !length_app, length_fmap, length_range, Hlen.
    simpl. lia.
  - rewrite Hlen. pose proof (sublist_length _ _ (dedup_sublist generated)). lia.
  - intros k x Hk. pose proof (lookup_lt_Some _ _ _ Hk) as Hlt. split.
    + unfold molecules. simpl. by rewrite lookup_app_l.
    + remember (molecules momelotinib gandotinib generated) as ms.
      unfold legends.
      change (([("momelotinib" : string)] ++ ?l) !! S k) with (l !! k).
      rewrite lookup_app_l by (rewrite length_fmap, length_range, Hlen; lia).
      rewrite list_lookup_fmap, lookup_range by (rewrite Hlen; lia).
      simpl. do 3 f_equal. lia.
Qed.

Lemma molecules_and_legends_witness :
  dedup ["CC"; "CCO"; "CC"] !! 1%nat = Some "CCO" ∧
  molecules "CN" "CO" ["CC"; "CCO"; "CC"] !! 2%nat = Some "CCO" ∧
  legends (molecules "CN" "CO" ["CC"; "CCO"; "CC"]) !! 2%nat
  = Some ("Interpolated Molecule #" +:+ pretty.pretty (Z.of_nat 2)).
Proof.
  split; [reflexivity|].
  destruct (molecules_and_legends "CN" "CO" ["CC"; "CCO"; "CC"])
    as (_ & _ & _ & _ & _ & Hkth).
  apply Hkth. reflexivity.
Defined.

(** ** The filter of the sweeps *)

(** On a list of strings the filter keeps the ones that parse, in order
    and with their repetitions; an item that is not a string, wherever it
    stands, makes the filter fail with [TypeError]. *)
Theorem valid_smiles_filter `{Toolkit} (generated_molecules : list json) :
  (∀ smiles, generated_molecules = JStr <$> smiles →
     valid_smiles generated_molecules
     = Return (JStr <$> filter (λ s, is_Some (parse s)) smiles)) ∧
  ((∃ v, v ∈ generated_molecules ∧ ∀ s, v ≠ JStr s) →
     valid_smiles generated_molecules = Raise TypeError).
Proof.
  split; [intros smiles ->; apply valid_smiles_strings|].
  unfold valid_smiles.
  induction generated_molecules as [|v g IH]; intros (w & Hw & Hns).
  - by apply elem_of_nil in Hw.
  - cbn [filter_comp]. destruct v as [| | |s| |]; try done.
    apply elem_of_cons in Hw as [->|Hw]; [by destruct (Hns s)|].
    simpl. by rewrite IH by eauto.
Qed.

(** ** The score of one molecule *)

Lemma TanimotoSimilarity_coefficient `{Toolkit} (bv1 bv2 : list bool) :
  length bv1 = length bv2 →
  Chem.TanimotoSimilarity bv1 bv2 = Return (coefficient bv1 bv2).
Proof.
  intros Hlen. unfold Chem.TanimotoSimilarity, coefficient.
  rewrite decide_True by done. simpl. by case_decide.
Qed.

Lemma NumOnBits_cons (b : bool) (bv : list bool) :
  Chem.NumOnBits (b :: bv) = ((if b then 1 else 0) + Chem.NumOnBits bv)%nat.
Proof. unfold Chem.NumOnBits. by destruct b. Qed.

Lemma NumOnBitsInCommon_le (bv1 bv2 : list bool) :
  (Chem.NumOnBitsInCommon bv1 bv2 ≤ Chem.NumOnBits bv1)%nat ∧
  (Chem.NumOnBitsInCommon bv1 bv2 ≤ Chem.NumOnBits bv2)%nat.
Proof.
  unfold Chem.NumOnBitsInCommon. revert bv2.
  induction bv1 as [|b1 bv1 IH]; intros [|b2 bv2]; simpl;
    [unfold Chem.NumOnBits; simpl; lia..|].
  rewrite !NumOnBits_cons. destruct (IH bv2). destruct b1, b2; simpl; lia.
Qed.

Lemma Qc_of_nat_le (a b : nat) :
  (a ≤ b)%nat → (Chem.Qc_of_nat a ≤ Chem.Qc_of_nat b)%Qc.
Proof. intros Hab. unfold Chem.Qc_of_nat. apply (proj1 (Z2Qc_inj_le _ _)). lia. Qed.

(** The coefficient is a proportion. *)
Lemma coefficient_range `{Toolkit} (bv1 bv2 : list bool) :
  (0 ≤ coefficient bv1 bv2)%Qc ∧ (coefficient bv1 bv2 ≤ 1)%Qc.
Proof.
  unfold coefficient. destruct (NumOnBitsInCommon_le bv1 bv2) as [Hxy Hxz].
  set (x := Chem.NumOnBitsInCommon bv1 bv2) in *.
  set (y := Chem.NumOnBits bv1) in *. set (z := Chem.NumOnBits bv2) in *.
  assert (Hd : (Chem.Qc_of_nat y + Chem.Qc_of_nat z - Chem.Qc_of_nat x)%Qc
               = Chem.Qc_of_nat (y + z - x)).
  { unfold Chem.Qc_of_nat. rewrite <-Z2Qc_inj_add, <-Z2Qc_inj_sub. f_equal. lia. }
  simpl. rewrite Hd. case_decide as Hzero; [apply empty_union_range|].
  assert (H0 : (0 ≤ Chem.Qc_of_nat x)%Qc).
  { rewrite <-Z2Qc_inj_0. apply (proj1 (Z2Qc_inj_le _ _)). lia. }
  assert (Hpos : (0 < Chem.Qc_of_nat (y + z - x))%Qc).
  { rewrite <-Z2Qc_inj_0. apply (proj1 (Z2Qc_inj_lt _ _)).
    destruct (decide (y + z - x = 0)%nat) as [Heq|]; [|lia].
    rewrite Heq in Hzero. destruct Hzero. apply Z2Qc_inj_0. }
  assert (Hinv : (0 ≤ / Chem.Qc_of_nat (y + z - x))%Qc)
    by (by apply Qclt_le_weak, Qcinv_pos).
  unfold Qcdiv. split.
  - by apply Qcmult_nonneg_nonneg.
  - rewrite <-(Qcmult_inv_r (Chem.Qc_of_nat (y + z - x))) by done.
    apply Qcmult_le_mono_nonneg_r; [done|]. apply Qc_of_nat_le. lia.
Qed.

Section score_facts.
Context `{Toolkit}.

Lemma tanimoto_similarity_value (s reference : string) (m mr : Mol) :
  parse s = Some m → parse reference = Some mr →
  tanimoto_similarity (JStr s) reference = Return (PyFloat (similarity_to mr m)).
Proof.
  intros Hs Hr. unfold tanimoto_similarity, similarity_to. simpl.
  rewrite Hr, Hs. simpl.
  by rewrite TanimotoSimilarity_coefficient by (by rewrite !fingerprint_length).
Qed.

(** The scoring loop on the strings that parse: what it appends. *)
Lemma score_loop_values (reference : string) (mr : Mol) (smiles : list string)
    (ts qs : list pynum) (c : pyobj) :
  parse reference = Some mr →
  for_each (score reference) (JStr <$> filter (λ s, is_Some (parse s)) smiles)
    [("tanimoto_similarity", PyList ts); ("qed_score", PyList qs); ("valid_smiles", c)]
  = Return
      [("tanimoto_similarity",
        PyList (ts ++ (PyFloat ∘ similarity_to mr <$> omap parse smiles)));
       ("qed_score", PyList (qs ++ (PyFloat ∘ drug_likeness <$> omap parse smiles)));
       ("valid_smiles", c)].
Proof.
  intros Hr. revert ts qs. induction smiles as [|s smiles IH]; intros ts qs.
  - simpl. by rewrite !app_nil_r.
  - rewrite filter_cons. cbn [omap list_omap]. destruct (parse s) as [m|] eqn:Hs.
    + rewrite decide_True by eauto. rewrite fmap_cons. cbn [for_each].
      rewrite (score_valid reference s m (similarity_to mr m))
        by (done || by apply tanimoto_similarity_value).
      cbn [mbind result_bind]. rewrite IH. csimpl. by rewrite <-!app_assoc.
    + rewrite decide_False by (by intros [? ?]). apply IH.
Qed.

Lemma length_valid_omap (smiles : list string) :
  length (filter (λ s, is_Some (parse s)) smiles) = length (omap parse smiles).
Proof.
  induction smiles as [|s smiles IH]; [done|].
  rewrite filter_cons. cbn [omap list_omap]. destruct (parse s) eqn:Hs.
  - rewrite decide_True by eauto. simpl. by rewrite IH.
  - by rewrite decide_False by (by intros [? ?]).
Qed.

Lemma radius_results_record (reference : string) (mr : Mol) (smiles : list string) :
  parse reference = Some mr →
  radius_results (JStr <$> smiles) reference = Return (record_of mr smiles).
Proof.
  intros Hr. unfold radius_results, scored_results.
  rewrite valid_smiles_strings. cbn [mbind result_bind].
  change (setitem [("tanimoto_similarity", PyList []); ("qed_score", PyList [])]
            "valid_smiles" ?c)
    with [("tanimoto_similarity", PyList []); ("qed_score", PyList []);
          ("valid_smiles", c)].
  rewrite (score_loop_values reference mr) by done.
  rewrite length_fmap, length_valid_omap. unfold record_of.
  cbn [mbind result_bind app].
  change (replace_by_mean [("tanimoto_similarity", PyList ?t); ("qed_score", ?q);
                           ("valid_smiles", ?c)] "tanimoto_similarity")
    with (Return [("tanimoto_similarity", PyMean (Np.mean (to_float <$> t)));
                  ("qed_score", q); ("valid_smiles", c)]).
  cbn [mbind result_bind].
  change (replace_by_mean [("tanimoto_similarity", ?t); ("qed_score", PyList ?q);
                           ("valid_smiles", ?c)] "qed_score")
    with (Return [("tanimoto_similarity", t);
                  ("qed_score", PyMean (Np.mean (to_float <$> q)));
                  ("valid_smiles", c)]).
  by rewrite <-!list_fmap_compose.
Qed.

End score_facts.

(** Against a reference that parses, [tanimoto_similarity] returns for
    every candidate string, and what it returns lies between 0 and 1. *)
Theorem tanimoto_similarity_range `{Toolkit} (candidate reference : string) :
  is_Some (parse reference) →
  ∃ x, tanimoto_similarity (JStr candidate) reference = Return x ∧
       (0 ≤ to_float x)%Qc ∧ (to_float x ≤ 1)%Qc.
Proof.
  intros [mr Hr]. destruct (parse candidate) as [m|] eqn:Hc.
  - exists (PyFloat (similarity_to mr m)).
    split; [by apply tanimoto_similarity_value|]. apply coefficient_range.
  - exists (PyInt 0). split.
    + unfold tanimoto_similarity. simpl. by rewrite Hr, Hc.
    + simpl. by rewrite Z2Qc_inj_0.
Qed.

(** ** What one iteration of a sweep records *)

(** For a response of strings and a reference that parses, an iteration of
    either sweep returns the number of strings that parse together with
    the mean similarity and the mean drug-likeness of the molecules they
    parse to: a string that does not parse is left out of the means, not
    counted as zero.  The recorded means are [nan] exactly when no string
    parses. *)
Theorem iteration_record `{Toolkit} (mr : Mol) (smiles : list string) :
  parse upadacitinib = Some mr →
  sampling_iteration (sampling_response smiles) = Return (record_of mr smiles) ∧
  guided_iteration (guided_response smiles) = Return (record_of mr smiles) ∧
  (Np.mean (similarity_to mr <$> omap parse smiles) = Np.nan
   ↔ Forall (λ s, parse s = None) smiles) ∧
  (Np.mean (drug_likeness <$> omap parse smiles) = Np.nan
   ↔ Forall (λ s, parse s = None) smiles).
Proof.
  intros Hr.
  assert (Hnan : ∀ (f : Mol → Qc),
            Np.mean (f <$> omap parse smiles) = Np.nan
            ↔ Forall (λ s, parse s = None) smiles).
  { intros f. trans (omap parse smiles = []).
    - destruct (omap parse smiles); simpl; split; done.
    - induction smiles as [|s smiles IH]; [by split|].
      cbn [omap list_omap]. destruct (parse s) as [m|] eqn:Hs; simpl.
      + split; [done|]. intros Hall. inversion Hall; congruence.
      + rewrite IH. split; [by constructor|]. intros Hall. by inversion Hall. }
  split; [|split; [|split; apply Hnan]].
  - unfold sampling_iteration. rewrite sampling_generated_response.
    by apply radius_results_record.
  - unfold guided_iteration. rewrite guided_generated_response.
    by apply radius_results_record.
Qed.

(** ** The sweeps as a whole *)

Lemma setitem_new {K V : Type} `{EqDecision K} (d : dict K V) (k : K) (v : V) :
  k ∉ keys d → setitem d k v = d ++ [(k, v)].
Proof.
  induction d as [|[k' v'] d IH]; simpl; [done|].
  intros [Hne Hnin]%not_elem_of_cons.
  rewrite decide_False by congruence. by rewrite IH.
Qed.

Section sweep_order.
Context (iteration : json → result (dict string pyobj)) (service : Qc → json).

Lemma sweep_loop_in_order (record : Qc → dict string pyobj) (params : list Qc)
    (acc : dict Qc (dict string pyobj)) :
  NoDup (keys acc ++ params) →
  (∀ p, p ∈ params → iteration (service p) = Return (record p)) →
  for_each (λ results param,
      point ← iteration (service param);
      Return (setitem results param point)) params acc
  = Return (acc ++ ((λ p, (p, record p)) <$> params)).
Proof.
  revert acc. induction params as [|p params IH]; intros acc Hnd Hit.
  - simpl. by rewrite app_nil_r.
  - cbn [for_each]. rewrite (Hit p) by left. cbn [mbind result_bind].
    pose proof Hnd as (_ & Hdisj & _)%list_relations.list.NoDup_app.
    rewrite setitem_new by (intros Hin; apply (Hdisj p Hin); left).
    rewrite IH.
    + by rewrite <-app_assoc.
    + unfold keys. rewrite fmap_app. simpl. by rewrite <-app_assoc.
    + intros q Hq. apply Hit. by right.
Qed.

End sweep_order.

(** When the parameter values are pairwise distinct and every iteration
    returns, the sweep returns one record per value, in the order of the
    values. *)
Theorem sweep_in_order (iteration : json → result (dict string pyobj))
    (service : Qc → json) (record : Qc → dict string pyobj) (params : list Qc) :
  NoDup params →
  (∀ p, p ∈ params → iteration (service p) = Return (record p)) →
  sweep iteration service params = Return ((λ p, (p, record p)) <$> params).
Proof.
  intros Hnd Hit. unfold sweep.
  by rewrite (sweep_loop_in_order iteration service record).
Qed.

(** The loop in place and the loop as a function agree on the runs that
    come to their end. *)
Lemma sweep_in_place_returns (iteration : json → result (dict string pyobj))
    (service : Qc → json) (params : list Qc)
    (acc results : dict Qc (dict string pyobj)) :
  for_each (λ results param,
      point ← iteration (service param);
      Return (setitem results param point)) params acc = Return results →
  sweep_in_place iteration service params acc = (results, None).
Proof.
  revert acc. induction params as [|p params IH]; intros acc; cbn [for_each sweep_in_place].
  - by intros [= ->].
  - destruct (iteration (service p)) as [point|e]; cbn [mbind result_bind]; [|done].
    apply IH.
Qed.

Lemma sweep_in_place_stops (iteration : json → result (dict string pyobj))
    (service : Qc → json) (before after : list Qc) (p : Qc) (e : exn)
    (acc results : dict Qc (dict string pyobj)) :
  for_each (λ results param,
      point ← iteration (service param);
      Return (setitem results param point)) before acc = Return results →
  iteration (service p) = Raise e →
  sweep_in_place iteration service (before ++ p :: after) acc = (results, Some e).
Proof.
  revert acc. induction before as [|q before IH]; intros acc;
    cbn [app for_each sweep_in_place].
  - intros [= ->] ->. done.
  - destruct (iteration (service q)) as [point|e']; cbn [mbind result_bind]; [|done].
    apply IH.
Qed.

(** An exception in one round stops the loop but does not undo the
    earlier rounds: [results] still holds the records of the parameter
    values before the failing one, exactly as a sweep over those values
    alone leaves them, and no later value is tried. *)
Theorem sweep_keeps_earlier_records
    (iteration : json → result (dict string pyobj)) (service : Qc → json)
    (before after : list Qc) (p : Qc) (e : exn)
    (results : dict Qc (dict string pyobj)) :
  sweep iteration service before = Return results →
  iteration (service p) = Raise e →
  sweep_in_place iteration service (before ++ p :: after) []
  = (results, Some e) ∧
  sweep_in_place iteration service before [] = (results, None).
Proof.
  unfold sweep. intros Hbefore Hp. split.
  - by apply sweep_in_place_stops.
  - by apply sweep_in_place_returns.
Qed.

(** ** Hidden states: from the response to the rows *)

Lemma shape_of_state (v : Np.vector) :
  Np.shape_of (JArr [Np.of_vector v]) = Some [1%nat; length v].
Proof. cbn [Np.shape_of]. by rewrite shape_of_vector. Qed.

Lemma shape_of_hiddens (states : list Np.vector) (d : nat) :
  Forall (λ v, length v = d) states → states ≠ [] →
  Np.shape_of (hiddens_of states) = Some [length states; 1%nat; d].
Proof.
  intros Hall Hne. destruct Hall as [|v states Hv Hall]; [done|].
  assert (Hrest : forallb (λ y, bool_decide (Np.shape_of y = Some [1%nat; d]))
                    ((λ v, JArr [Np.of_vector v]) <$> states) = true).
  { clear Hne. induction Hall as [|v' states Hv' _ IH]; [done|].
    rewrite fmap_cons. cbn [forallb]. rewrite IH, andb_true_r.
    apply bool_decide_eq_true. by rewrite shape_of_state, Hv'. }
  unfold hiddens_of. rewrite fmap_cons.
  change (Np.shape_of (JArr (?x :: ?l)))
    with (match Np.shape_of x with
          | Some s =>
              if forallb (λ y, bool_decide (Np.shape_of y = Some s)) l
              then Some (length (x :: l) :: s) else None
          | None => None
          end).
  rewrite shape_of_state, Hv, Hrest. cbn [length]. by rewrite length_fmap.
Qed.

Lemma leaves_hiddens (states : list Np.vector) :
  Np.leaves (hiddens_of states) = mjoin ((fmap JNum) <$> states).
Proof.
  unfold hiddens_of. cbn [Np.leaves].
  induction states as [|v states IH]; [done|].
  rewrite !fmap_cons. cbn [mjoin list_join]. f_equal; [|apply IH].
  change (Np.leaves (JArr [Np.of_vector v])) with (Np.leaves (Np.of_vector v) ++ []).
  by rewrite app_nil_r, leaves_vector.
Qed.

Lemma product_squeezed (d : nat) :
  Np.product (filter (λ k, k ≠ 1%nat) [d]) = d.
Proof.
  rewrite filter_cons.
  destruct (decide (d ≠ 1%nat)) as [Hd|Hd]; unfold Np.product; simpl; [lia|].
  destruct (decide (d = 1%nat)); [lia|by destruct Hd].
Qed.

(** A response that carries the hidden states of at least two molecules,
    each state wrapped in a singleton axis and all of one length other
    than 1, gives back the first two states as the two rows.  For states
    of length 1, [squeeze] removes their axis as well and the two rows are
    arrays without axes. *)
Theorem hidden_states_round_trip (fields : list (string * json))
    (A B : Np.vector) (others : list Np.vector) (d : nat) :
  get fields "hiddens" = Some (hiddens_of (A :: B :: others)) →
  Forall (λ v, length v = d) (A :: B :: others) →
  extract_hidden_rows (JObj fields)
  = Return ({| Np.shape := filter (λ k, k ≠ 1%nat) [d]; Np.data := JNum <$> A |},
            {| Np.shape := filter (λ k, k ≠ 1%nat) [d]; Np.data := JNum <$> B |}) ∧
  (d ≠ 1%nat →
   extract_hidden_rows (JObj fields) = Return (vector_array A, vector_array B)).
Proof.
  intros Hget Hall.
  assert (Hrows : extract_hidden_rows (JObj fields)
    = Return ({| Np.shape := filter (λ k, k ≠ 1%nat) [d]; Np.data := JNum <$> A |},
              {| Np.shape := filter (λ k, k ≠ 1%nat) [d]; Np.data := JNum <$> B |})).
  { unfold extract_hidden_rows. simpl getitem_key. rewrite Hget.
    cbn [mbind result_bind]. unfold Np.array.
    rewrite (shape_of_hiddens _ d) by done. rewrite leaves_hiddens.
    cbn [mbind result_bind]. unfold Np.item, Np.squeeze. cbn [Np.shape Np.data].
    rewrite (filter_cons _ (length (A :: B :: others))).
    rewrite decide_True by (simpl; lia).
    change (filter (λ k, k ≠ 1%nat) [1%nat; d]) with (filter (λ k, k ≠ 1%nat) [d]).
    cbn [length].
    destruct (decide (0 < S (S (length others)))%nat); [|lia].
    cbn [mbind result_bind].
    destruct (decide (1 < S (S (length others)))%nat); [|lia].
    cbn [mbind result_bind].
    unfold Np.row. cbn [Np.shape Np.data tail]. rewrite product_squeezed.
    inversion Hall as [|? ? HA Hall']. inversion Hall' as [|? ? HB _]. subst.
    rewrite !fmap_cons. cbn [mjoin list_join].
    rewrite Nat.mul_0_l, drop_0, Nat.mul_1_l.
    rewrite take_app_length' by (by rewrite length_fmap).
    rewrite drop_app_length' by (by rewrite length_fmap).
    by rewrite take_app_length' by (by rewrite length_fmap). }
  split; [exact Hrows|]. intros Hd. rewrite Hrows. unfold vector_array.
  inversion Hall as [|? ? HA Hall']. inversion Hall' as [|? ? HB _]. subst.
  rewrite HB. rewrite filter_cons, decide_True by done. done.
Qed.

Lemma hidden_states_round_trip_witness :
  extract_hidden_rows
    (JObj [("hiddens", hiddens_of [[Qc_of_Z 1; Qc_of_Z 2]; [Qc_of_Z 3; Qc_of_Z 4]])])
  = Return (vector_array [Qc_of_Z 1; Qc_of_Z 2], vector_array [Qc_of_Z 3; Qc_of_Z 4]).
Proof.
  apply (hidden_states_round_trip _ [Qc_of_Z 1; Qc_of_Z 2] [Qc_of_Z 3; Qc_of_Z 4] [] 2);
    [reflexivity|repeat constructor|lia].
Defined.

(** ** Arrays stay well formed *)

(** Induction on parsed JSON, with the hypothesis for every item of a
    list. *)
Lemma json_nested_ind (P : json → Prop) :
  P JNull → (∀ b, P (JBool b)) → (∀ q, P (JNum q)) → (∀ s, P (JStr s)) →
  (∀ items, Forall P items → P (JArr items)) →
  (∀ fields, P (JObj fields)) →
  ∀ v, P v.
Proof.
  intros Hnull Hbool Hnum Hstr Harr Hobj.
  fix IH 1. intros [|b|q|s|items|fields]; [done..| |done].
  apply Harr. induction items as [|x items IHitems]; constructor;
    [apply IH|apply IHitems].
Qed.

Lemma length_join_same {X : Type} (ls : list (list X)) (k : nat) :
  Forall (λ l, length l = k) ls → length (mjoin ls) = (length ls * k)%nat.
Proof.
  induction 1 as [|l ls Hl _ IH]; [done|].
  change (mjoin (l :: ls)) with (l ++ mjoin ls).
  rewrite length_app, IH, Hl. simpl. lia.
Qed.

Lemma shape_of_leaves (v : json) :
  ∀ dims, Np.shape_of v = Some dims → length (Np.leaves v) = Np.product dims.
Proof.
  induction v as [| | | |items IH|] using json_nested_ind;
    try (by intros dims [= <-]).
  intros dims Hdims. destruct items as [|x items]; [by injection Hdims as <-|].
  cbn [Np.shape_of] in Hdims.
  destruct (Np.shape_of x) as [sx|] eqn:Hx; [|done].
  destruct (forallb _ items) eqn:Hall; [|done]. injection Hdims as <-.
  cbn [Np.leaves].
  rewrite (length_join_same _ (Np.product sx)).
  - rewrite length_fmap. unfold Np.product. simpl. lia.
  - apply Forall_fmap, Forall_forall. intros y Hy. simpl.
    rewrite Forall_forall in IH. apply (IH y Hy).
    destruct Hy as [<-|Hy]; [done|].
    rewrite forallb_forall in Hall. by apply (bool_decide_eq_true_1 _), Hall.
Qed.

Lemma product_squeeze (dims : list nat) :
  Np.product (filter (λ d, d ≠ 1%nat) dims) = Np.product dims.
Proof.
  induction dims as [|d dims IH]; [done|].
  rewrite filter_cons. unfold Np.product in *. case_decide as Hd; simpl.
  - by rewrite IH.
  - rewrite IH. destruct (decide (d = 1%nat)) as [->|]; [lia|by destruct Hd].
Qed.

Lemma item_well_formed (a r : Np.ndarray) (i : nat) :
  well_formed a → Np.item a i = Return r →
  well_formed r ∧ Np.shape r = tail (Np.shape a).
Proof.
  unfold well_formed, Np.item. intros Hwf Hitem.
  destruct (Np.shape a) as [|d rest] eqn:Hshape; [done|].
  case_decide as Hi; [|done]. injection Hitem as <-.
  unfold Np.row. rewrite Hshape. cbn [Np.shape Np.data tail]. split; [|done].
  rewrite length_take, length_drop, Hwf.
  unfold Np.product. simpl. fold (Np.product rest). nia.
Qed.

(** Whenever the extraction returns, the two rows have one shape and each
    holds exactly as many items as that shape asks for, so the arithmetic
    of the interpolation meets two arrays that fit. *)
Theorem extracted_rows_fit (response_json : json) (row1 row2 : Np.ndarray) :
  extract_hidden_rows response_json = Return (row1, row2) →
  Np.shape row1 = Np.shape row2 ∧ well_formed row1 ∧ well_formed row2 ∧
  length (Np.data row1) = length (Np.data row2).
Proof.
  unfold extract_hidden_rows. intros Hrows.
  apply bind_Return in Hrows as (hiddens & _ & Hrows).
  apply bind_Return in Hrows as (arr & Harr & Hrows).
  apply bind_Return in Hrows as (r1 & Hr1 & Hrows).
  apply bind_Return in Hrows as (r2 & Hr2 & Hrows). injection Hrows as <- <-.
  assert (Hwf : well_formed (Np.squeeze arr)).
  { unfold Np.array in Harr.
    destruct (Np.shape_of hiddens) as [dims|] eqn:Hdims; [|done].
    injection Harr as <-. unfold well_formed, Np.squeeze. cbn [Np.shape Np.data].
    rewrite product_squeeze. by apply shape_of_leaves. }
  destruct (item_well_formed _ _ _ Hwf Hr1) as [Hwf1 Hs1].
  destruct (item_well_formed _ _ _ Hwf Hr2) as [Hwf2 Hs2].
  split; [congruence|]. split; [done|]. split; [done|].
  unfold well_formed in *. congruence.
Qed.

Lemma extracted_rows_fit_witness :
  Np.shape {| Np.shape := [2%nat]; Np.data := [JNum (Qc_of_Z 1); JNum (Qc_of_Z 2)] |}
  = Np.shape {| Np.shape := [2%nat]; Np.data := [JNum (Qc_of_Z 3); JNum (Qc_of_Z 4)] |} ∧
  well_formed {| Np.shape := [2%nat]; Np.data := [JNum (Qc_of_Z 1); JNum (Qc_of_Z 2)] |} ∧
  well_formed {| Np.shape := [2%nat]; Np.data := [JNum (Qc_of_Z 3); JNum (Qc_of_Z 4)] |} ∧
  length (Np.data {| Np.shape := [2%nat];
                     Np.data := [JNum (Qc_of_Z 1); JNum (Qc_of_Z 2)] |})
  = length (Np.data {| Np.shape := [2%nat];
                       Np.data := [JNum (Qc_of_Z 3); JNum (Qc_of_Z 4)] |}).
Proof. apply (extracted_rows_fit three_rows_response). reflexivity. Defined.

(** ** Responses without molecules *)

(** A response without the key [generated] ends an iteration of either
    sweep with [KeyError].  When [generated] is an empty list the two
    sweeps part: the sampling loop, which takes the list's first item,
    fails with [IndexError]; the guided loop, which walks the list, scores
    nothing and records [nan] means. *)
Theorem iteration_without_molecules `{Toolkit} (fields : list (string * json)) :
  (get fields "generated" = None →
     sampling_iteration (JObj fields) = Raise KeyError ∧
     guided_iteration (JObj fields) = Raise KeyError) ∧
  (get fields "generated" = Some (JArr []) →
     sampling_iteration (JObj fields) = Raise IndexError ∧
     guided_iteration (JObj fields) = Return nothing_valid).
Proof.
  split; intros Hget; split.
  - unfold sampling_iteration, sampling_generated. simpl. by rewrite Hget.
  - unfold guided_iteration, guided_generated. simpl. by rewrite Hget.
  - unfold sampling_iteration, sampling_generated. simpl. by rewrite Hget.
  - unfold guided_iteration, guided_generated. simpl. by rewrite Hget.
Qed.

(** ** The recorded mean similarity is a proportion *)

Lemma sum_bounds (xs : list Qc) :
  Forall (λ x, (0 ≤ x)%Qc ∧ (x ≤ 1)%Qc) xs →
  (0 ≤ Np.sum xs)%Qc ∧ (Np.sum xs ≤ Chem.Qc_of_nat (length xs))%Qc.
Proof.
  induction 1 as [|x xs [Hx0 Hx1] _ [IH0 IH1]].
  - unfold Np.sum, Chem.Qc_of_nat. cbn [foldr length].
    change (Z.of_nat 0) with 0. rewrite Z2Qc_inj_0. by split.
  - unfold Np.sum in *. cbn [foldr length]. split.
    + by apply Qcplus_nonneg_nonneg.
    + unfold Chem.Qc_of_nat in *.
      replace (Z.of_nat (S (length xs))) with (1 + Z.of_nat (length xs)) by lia.
      rewrite Z2Qc_inj_add, Z2Qc_inj_1. by apply Qcplus_le_compat.
Qed.

Lemma mean_bounds (xs : list Qc) :
  Forall (λ x, (0 ≤ x)%Qc ∧ (x ≤ 1)%Qc) xs →
  Np.mean xs = Np.nan ∨ ∃ q, Np.mean xs = Np.fin q ∧ (0 ≤ q)%Qc ∧ (q ≤ 1)%Qc.
Proof.
  intros Hxs. destruct xs as [|x xs]; [by left|]. right.
  destruct (sum_bounds _ Hxs) as [H0 H1].
  eexists. split; [reflexivity|].
  set (n := Qc_of_Z (Z.of_nat (length (x :: xs)))) in *.
  assert (Hn : (0 < n)%Qc).
  { unfold n. rewrite <-Z2Qc_inj_0. apply (proj1 (Z2Qc_inj_lt _ _)). simpl. lia. }
  assert (Hinv : (0 ≤ / n)%Qc) by (by apply Qclt_le_weak, Qcinv_pos).
  unfold Qcdiv. split.
  - by apply Qcmult_nonneg_nonneg.
  - rewrite <-(Qcmult_inv_r n) by (intros Heq; rewrite Heq in Hn; by destruct (Qclt_not_eq _ _ Hn)).
    by apply Qcmult_le_mono_nonneg_r.
Qed.

(** The mean similarity that an iteration of either sweep records for a
    response of strings is [nan] or a number between 0 and 1. *)
Theorem recorded_similarity_range `{Toolkit} (smiles : list string) :
  is_Some (parse upadacitinib) →
  ∃ record x,
    sampling_iteration (sampling_response smiles) = Return record ∧
    guided_iteration (guided_response smiles) = Return record ∧
    get record "tanimoto_similarity" = Some (PyMean x) ∧
    (x = Np.nan ∨ ∃ q, x = Np.fin q ∧ (0 ≤ q)%Qc ∧ (q ≤ 1)%Qc).
Proof.
  intros [mr Hr]. exists (record_of mr smiles). eexists.
  split; [|split; [|split; [reflexivity|]]].
  - unfold sampling_iteration. rewrite sampling_generated_response.
    by apply radius_results_record.
  - unfold guided_iteration. rewrite guided_generated_response.
    by apply radius_results_record.
  - apply mean_bounds, Forall_fmap, Forall_true. intros m. apply coefficient_range.
Qed.

(** ** Instances of the further properties *)

Lemma interpolate_then_package_witness :
  ∃ rows hiddens mask,
    interpolate [Qc_of_Z 0; Qc_of_Z 4] [Qc_of_Z 2; Qc_of_Z 0] 3 = Return rows ∧
    interpolated_hiddens_json rows 3
      = Return (JObj [("hiddens", hiddens); ("mask", mask)]) ∧
    has_shape [Z.to_nat 3; 1%nat; length [Qc_of_Z 0; Qc_of_Z 4]] hiddens.
Proof.
  apply (interpolate_then_package [Qc_of_Z 0; Qc_of_Z 4] [Qc_of_Z 2; Qc_of_Z 0] 3);
    [reflexivity|lia].
Defined.

Section further_instances.
Local Existing Instance small_toolkit.

Lemma valid_smiles_filter_witness :
  valid_smiles (JStr <$> ["CCO"; "C1CC"; "CCO"])
  = Return (JStr <$> filter (λ s, is_Some (parse s)) ["CCO"; "C1CC"; "CCO"]) ∧
  valid_smiles [JStr "CCO"; JNum (Qc_of_Z 7)] = Raise TypeError.
Proof.
  split.
  - by apply (valid_smiles_filter (JStr <$> ["CCO"; "C1CC"; "CCO"])).
  - apply (valid_smiles_filter [JStr "CCO"; JNum (Qc_of_Z 7)]).
    exists (JNum (Qc_of_Z 7)). split; [by right; left|done].
Defined.

Lemma tanimoto_similarity_range_witness :
  ∃ x, tanimoto_similarity (JStr "CCO") "CC" = Return x ∧
       (0 ≤ to_float x)%Qc ∧ (to_float x ≤ 1)%Qc.
Proof. apply (tanimoto_similarity_range "CCO" "CC"). by eexists. Defined.

Lemma iteration_record_witness :
  sampling_iteration (sampling_response ["CCO"; "C1CC"; "C"])
  = Return (record_of (upadacitinib : @Mol small_toolkit) ["CCO"; "C1CC"; "C"]) ∧
  guided_iteration (guided_response ["CCO"; "C1CC"; "C"])
  = Return (record_of (upadacitinib : @Mol small_toolkit) ["CCO"; "C1CC"; "C"]) ∧
  (Np.mean (similarity_to (upadacitinib : @Mol small_toolkit) <$> omap parse ["CCO"; "C1CC"; "C"])
   = Np.nan ↔ Forall (λ s, parse s = None) ["CCO"; "C1CC"; "C"]) ∧
  (Np.mean (drug_likeness <$> omap parse ["CCO"; "C1CC"; "C"]) = Np.nan
   ↔ Forall (λ s, parse s = None) ["CCO"; "C1CC"; "C"]).
Proof.
  apply (iteration_record (upadacitinib : @Mol small_toolkit) ["CCO"; "C1CC"; "C"]). reflexivity.
Defined.

Lemma iteration_without_molecules_witness :
  (sampling_iteration (JObj [("detail", JStr "error")]) = Raise KeyError ∧
   guided_iteration (JObj [("detail", JStr "error")]) = Raise KeyError) ∧
  (sampling_iteration (JObj [("generated", JArr [])]) = Raise IndexError ∧
   guided_iteration (JObj [("generated", JArr [])]) = Return nothing_valid).
Proof.
  split.
  - by apply (iteration_without_molecules [("detail", JStr "error")]).
  - by apply (iteration_without_molecules [("generated", JArr [])]).
Defined.

Lemma recorded_similarity_range_witness :
  ∃ record x,
    sampling_iteration (sampling_response ["CCO"; "C1CC"; "C"]) = Return record ∧
    guided_iteration (guided_response ["CCO"; "C1CC"; "C"]) = Return record ∧
    get record "tanimoto_similarity" = Some (PyMean x) ∧
    (x = Np.nan ∨ ∃ q, x = Np.fin q ∧ (0 ≤ q)%Qc ∧ (q ≤ 1)%Qc).
Proof. apply (recorded_similarity_range ["CCO"; "C1CC"; "C"]). by eexists. Defined.

Lemma sweep_in_order_witness :
  sweep sampling_iteration (λ _, sampling_response ["C1CC"]) [Qc_of_Z 1; Qc_of_Z 2]
  = Return ((λ p, (p, nothing_valid)) <$> [Qc_of_Z 1; Qc_of_Z 2]).
Proof.
  apply (sweep_in_order sampling_iteration (λ _, sampling_response ["C1CC"])
           (λ _, nothing_valid) [Qc_of_Z 1; Qc_of_Z 2]).
  - apply (bool_decide_unpack _). by vm_compute.
  - intros p _. reflexivity.
Defined.

Lemma sweep_keeps_earlier_records_witness :
  sweep_in_place sampling_iteration
    (λ p, if decide (p = Qc_of_Z 2) then JNull else sampling_response ["C1CC"])
    ([Qc_of_Z 1] ++ Qc_of_Z 2 :: [Qc_of_Z 3]) []
  = ([(Qc_of_Z 1, nothing_valid)], Some TypeError) ∧
  sweep_in_place sampling_iteration
    (λ p, if decide (p = Qc_of_Z 2) then JNull else sampling_response ["C1CC"])
    [Qc_of_Z 1] []
  = ([(Qc_of_Z 1, nothing_valid)], None).
Proof.
  apply (sweep_keeps_earlier_records sampling_iteration
           (λ p, if decide (p = Qc_of_Z 2) then JNull else sampling_response ["C1CC"])
           [Qc_of_Z 1] [Qc_of_Z 3] (Qc_of_Z 2) TypeError
           [(Qc_of_Z 1, nothing_valid)]); reflexivity.
Defined.

Lemma sweep_keys_witness :
  keys [(Qc_of_Z 1, nothing_valid); (Qc_of_Z 2, nothing_valid)]
  = dedup [Qc_of_Z 1; Qc_of_Z 2; Qc_of_Z 1].
Proof.
  apply (sweep_keys sampling_iteration (λ _, sampling_response ["C1CC"])
           [Qc_of_Z 1; Qc_of_Z 2; Qc_of_Z 1]).
  reflexivity.
Defined.

End further_instances.
